(** * BudgetBuddy: the summary, chart and record-date logic of [app.py]

    A shallow embedding of the computational parts of the Flask
    application: the per-month aggregator [totals_for_month], the
    comparison rows and the bar scaling of [monthly_summary] and
    [download_summary_svg], the pie geometry of [make_pie_paths], the
    default comparison period, and the date handling of [add_expense] and
    [edit_expense]; then the other handlers: the accounts ([signup],
    [login], [logout], [login_required]), the list page [index], the
    deletion of a record, and the document [download_summary_svg] writes.

    Python floats are idealised as exact rationals ([Qc], canonical
    fractions with Leibniz equality) wherever a statement is about the
    structure of a computation: which rows, in which order, under which
    guard.  There the trigonometric functions are total, and an amount is
    never infinite.  Where a statement depends on how floats round, the
    sums of [totals_for_month] and the percent change of a comparison
    row, the code is embedded a second time over binary64 numbers, in
    [Binary64].  Python exceptions are values of [exn], carried by the
    [result] monad. *)

From Stdlib Require Import QArith Qcanon Qround ZArith Lia.
From Stdlib Require SpecFloat.
From stdpp Require Import base numbers list strings pretty gmap fin_maps sorting.

Local Open Scope Z_scope.
Local Open Scope Qc_scope.

(** ** Exceptions *)

Inductive exn : Type :=
  | ZeroDivisionError
  | ValueError
  | OverflowError
  | IndexError
  | BadRequestKeyError
  | NotFound.

Inductive result (A : Type) : Type :=
  | Ok (a : A)
  | Raise (e : exn).
Arguments Ok {A} a.
Arguments Raise {A} e.

Global Instance result_bind : MBind result := λ A B k r,
  match r with
  | Ok a => k a
  | Raise e => Raise e
  end.
Global Instance result_ret : MRet result := λ A a, Ok a.

(** ** Numbers *)

Module Num.

(** An integer literal as a number. *)
Definition of_Z (n : Z) : Qc := Qc_of_Z n.

(** [a / b]: Python raises [ZeroDivisionError] on a zero divisor. *)
Definition div (a b : Qc) : result Qc :=
  if decide (b = 0) then Raise ZeroDivisionError else Ok (a / b).

(** [max(a, b)]: the first argument wins a tie. *)
Definition max (a b : Qc) : Qc := if decide (a < b) then b else a.

(** [max(a, b, c)] *)
Definition max3 (a b c : Qc) : Qc := max (max a b) c.

(** The integer nearest to [x], a tie going to the even neighbour: the
    rounding of Python's built-in [round]. *)
Definition round_half_even (x : Qc) : Z :=
  let f := Qfloor x in
  let r := x - of_Z f in
  if decide (r < Q2Qc (1 # 2)) then f
  else if decide (Q2Qc (1 # 2) < r) then (f + 1)%Z
  else if Z.even f then f else (f + 1)%Z.

(** [round(x, 2)] *)
Definition round2 (x : Qc) : Qc :=
  of_Z (round_half_even (x * of_Z 100)) / of_Z 100.

End Num.

(** ** Records of the data model *)

(** A calendar date as the triple [datetime.date] holds. *)
Record date : Type := Date { d_year : Z; d_month : Z; d_day : Z }.

(** A row of the [expense] table (the columns the code reads). *)
Record Expense : Type := mkExpense {
  title : string;
  amount : Qc;
  category : string;
  e_date : date
}.

(** ** The aggregator: [totals_for_month] *)

(** The query [Expense.query.filter(extract('year', ..) == year,
    extract('month', ..) == month).all()] over the rows of the table. *)
Definition in_month (month year : Z) (e : Expense) : bool :=
  bool_decide (d_year (e_date e) = year) && bool_decide (d_month (e_date e) = month).

Definition query_month (table : list Expense) (month year : Z) : list Expense :=
  List.filter (in_month month year) table.

(** One turn of the loop: [totals[e.category] = totals.get(e.category, 0.0)
    + e.amount; total += e.amount]. *)
Definition totals_step (acc : gmap string Qc * Qc) (e : Expense) : gmap string Qc * Qc :=
  let '(totals, total) := acc in
  (<[category e := default 0 (totals !! category e) + amount e]> totals,
   total + amount e).

Definition totals_for_month (table : list Expense) (month year : Z)
  : gmap string Qc * Qc :=
  foldl totals_step (∅, 0) (query_month table month year).

(** ** The pie-slice builder: [make_pie_paths] *)

(** An input slice [{'category': .., 'value': ..}]. *)
Record slice : Type := mkSlice { sl_category : string; sl_value : Qc }.

(** An emitted slice: the dictionary appended to [paths]. *)
Record pie_path : Type := mkPiePath {
  p_d : string;
  p_color : string;
  p_label_x : Qc;
  p_label_y : Qc;
  p_label : string;
  p_value : Qc;
  p_pct : Qc
}.

Definition default_colors : list string :=
  ["#3A9AD9"; "#FF6B78"; "#FFD166"; "#6BCB77"; "#8E63FF"; "#FF9F80"].

(** [colors[i % len(colors)]] *)
Definition palette_at (colors : list string) (i : nat) : result string :=
  if decide (length colors = 0%nat) then Raise ZeroDivisionError
  else match colors !! (i mod length colors)%nat with
       | Some c => Ok c
       | None => Raise IndexError
       end.

Section make_pie_paths.

(** The library functions the builder calls: [math.radians], [math.cos],
    [math.sin], and the format specification [:.2f]. *)
Variables (radians cos sin : Qc → Qc) (fmt2 : Qc → string).

(** The f-string of the path description. *)
Definition path_d (cx cy r x1 y1 x2 y2 : Qc) (large_arc : Z) : string :=
  "M " +:+ fmt2 cx +:+ "," +:+ fmt2 cy +:+
  " L " +:+ fmt2 x1 +:+ "," +:+ fmt2 y1 +:+
  " A " +:+ fmt2 r +:+ "," +:+ fmt2 r +:+ " 0 " +:+ pretty large_arc +:+ ",1 " +:+
  fmt2 x2 +:+ "," +:+ fmt2 y2 +:+ " Z".

(** The body of [for i, s in enumerate(slices)], on the loop state
    [(start_angle, paths)]. *)
Definition pie_body (total cx cy r : Qc) (colors : list string)
    (st : Qc * list pie_path) (i : nat) (s : slice) : result (Qc * list pie_path) :=
  let '(start_angle, paths) := st in
  let value := sl_value s in
  if decide (value ≤ 0) then Ok (start_angle, paths)
  else
    q ← Num.div value total;
    let angle := q * Num.of_Z 360 in
    let end_angle := start_angle + angle in
    let start_rad := radians (start_angle - Num.of_Z 90) in
    let end_rad := radians (end_angle - Num.of_Z 90) in
    let x1 := cx + r * cos start_rad in
    let y1 := cy + r * sin start_rad in
    let x2 := cx + r * cos end_rad in
    let y2 := cy + r * sin end_rad in
    let large_arc := if decide (Num.of_Z 180 < angle) then 1%Z else 0%Z in
    let d := path_d cx cy r x1 y1 x2 y2 large_arc in
    let mid_angle := start_angle + angle / Num.of_Z 2 in
    let mid_rad := radians (mid_angle - Num.of_Z 90) in
    let label_r := r * Q2Qc (62 # 100) in
    let label_x := cx + label_r * cos mid_rad in
    let label_y := cy + label_r * sin mid_rad in
    q' ← Num.div value total;
    let pct := Num.round2 (q' * Num.of_Z 100) in
    color ← palette_at colors i;
    Ok (end_angle,
        paths ++ [ {| p_d := d; p_color := color;
                      p_label_x := label_x; p_label_y := label_y;
                      p_label := sl_category s;
                      p_value := Num.round2 value; p_pct := pct |} ]).

Fixpoint pie_loop (total cx cy r : Qc) (colors : list string)
    (st : Qc * list pie_path) (i : nat) (slices : list slice)
  : result (Qc * list pie_path) :=
  match slices with
  | [] => Ok st
  | s :: rest =>
      st' ← pie_body total cx cy r colors st i s;
      pie_loop total cx cy r colors st' (S i) rest
  end.

(** [if not colors: colors = [...]] *)
Definition effective_colors (colors : option (list string)) : list string :=
  match colors with
  | None | Some [] => default_colors
  | Some cs => cs
  end.

Definition make_pie_paths (slices : list slice) (total cx cy r : Qc)
    (colors : option (list string)) : result (list pie_path) :=
  let colors := effective_colors colors in
  let paths := [] in
  if decide (total ≤ 0) then Ok paths
  else
    st ← pie_loop total cx cy r colors (0, paths) 0 slices;
    Ok (snd st).

End make_pie_paths.

(** ** The date arithmetic of the standard library

    [date(year, month, 1) - timedelta(days=1)] goes through proleptic
    Gregorian ordinals; the functions follow the reference implementation
    of [datetime]. *)

Module PyDate.

Definition MINYEAR : Z := 1.
Definition MAXYEAR : Z := 9999.
Definition MAXORDINAL : Z := 3652059.

Definition DAYS_IN_MONTH : list Z :=
  [-1; 31; 28; 31; 30; 31; 30; 31; 31; 30; 31; 30; 31]%Z.
Definition DAYS_BEFORE_MONTH : list Z :=
  [-1; 0; 31; 59; 90; 120; 151; 181; 212; 243; 273; 304; 334]%Z.

Definition tbl (t : list Z) (i : Z) : Z := nth (Z.to_nat i) t (-1)%Z.

Definition is_leap (year : Z) : bool :=
  (year mod 4 =? 0)%Z && (negb (year mod 100 =? 0)%Z || (year mod 400 =? 0)%Z).

Definition days_before_year (year : Z) : Z :=
  let y := (year - 1)%Z in
  (y * 365 + y / 4 - y / 100 + y / 400)%Z.

Definition days_in_month (year month : Z) : Z :=
  if (month =? 2)%Z && is_leap year then 29%Z else tbl DAYS_IN_MONTH month.

Definition days_before_month (year month : Z) : Z :=
  (tbl DAYS_BEFORE_MONTH month + (if (2 <? month)%Z && is_leap year then 1 else 0))%Z.

Definition ymd2ord (year month day : Z) : Z :=
  (days_before_year year + days_before_month year month + day)%Z.

Definition DI400Y : Z := 146097.
Definition DI100Y : Z := 36524.
Definition DI4Y : Z := 1461.

Definition ord2ymd (n0 : Z) : date :=
  let n := (n0 - 1)%Z in
  let n400 := (n / DI400Y)%Z in
  let n := (n mod DI400Y)%Z in
  let year := (n400 * 400 + 1)%Z in
  let n100 := (n / DI100Y)%Z in
  let n := (n mod DI100Y)%Z in
  let n4 := (n / DI4Y)%Z in
  let n := (n mod DI4Y)%Z in
  let n1 := (n / 365)%Z in
  let n := (n mod 365)%Z in
  let year := (year + (n100 * 100 + n4 * 4 + n1))%Z in
  if (n1 =? 4)%Z || (n100 =? 4)%Z then Date (year - 1) 12 31
  else
    let leapyear := (n1 =? 3)%Z && (negb (n4 =? 24)%Z || (n100 =? 3)%Z) in
    let month := Z.shiftr (n + 50) 5 in
    let preceding :=
      (tbl DAYS_BEFORE_MONTH month + (if (2 <? month)%Z && leapyear then 1 else 0))%Z in
    let '(month, preceding) :=
      if (n <? preceding)%Z
      then ((month - 1)%Z,
            (preceding - (tbl DAYS_IN_MONTH (month - 1)
                          + (if (month - 1 =? 2)%Z && leapyear then 1 else 0)))%Z)
      else (month, preceding) in
    Date year month (n - preceding + 1).

(** An argument the constructor can read as a C int. *)
Definition fits_int (n : Z) : bool :=
  (-2147483648 <=? n)%Z && (n <=? 2147483647)%Z.

(** [date(year, month, day)]: the constructor reads its arguments as C
    ints, then checks the fields. *)
Definition make (year month day : Z) : result date :=
  if negb (fits_int year && fits_int month && fits_int day) then Raise OverflowError
  else if negb ((MINYEAR <=? year)%Z && (year <=? MAXYEAR)%Z) then Raise ValueError
  else if negb ((1 <=? month)%Z && (month <=? 12)%Z) then Raise ValueError
  else if negb ((1 <=? day)%Z && (day <=? days_in_month year month)%Z)
       then Raise ValueError
  else Ok (Date year month day).

Definition toordinal (d : date) : Z := ymd2ord (d_year d) (d_month d) (d_day d).

(** [d - timedelta(days=days)] *)
Definition sub_days (d : date) (days : Z) : result date :=
  let o := (toordinal d + - days)%Z in
  if (0 <? o)%Z && (o <=? MAXORDINAL)%Z then Ok (ord2ymd o)
  else Raise OverflowError.

End PyDate.

(** ** The default comparison period

    [if compare_month is None or compare_year is None: ...], the same in
    [monthly_summary] and in [download_summary_svg]. *)
Definition resolve_compare (month year : Z) (compare_month compare_year : option Z)
  : result (Z * Z) :=
  match compare_month, compare_year with
  | Some cm, Some cy => Ok (cm, cy)
  | _, _ =>
      first_of_current ← PyDate.make year month 1;
      prev_month_last_day ← PyDate.sub_days first_of_current 1;
      Ok (d_month prev_month_last_day, d_year prev_month_last_day)
  end.

(** ** Comparison rows *)

(** The value of [pct_change]: [None], a string, or a number. *)
Inductive pct_value : Type :=
  | PctNone
  | PctStr (s : string)
  | PctNum (q : Qc).

Record comparison_row : Type := mkRow {
  row_category : string;
  row_primary : Qc;
  row_compare : Qc;
  row_diff : Qc;
  row_pct_change : pct_value
}.

(** [list(m.keys())] *)
Definition keys (m : gmap string Qc) : list string := (map_to_list m).*1.

(** [sorted(set(list(primary_totals_map.keys()) +
    list(compare_totals_map.keys())))]: strings compare by code point,
    which on the bytes of a string is the order [String.le]. *)
Definition categories_of (primary_totals_map compare_totals_map : gmap string Qc)
  : list string :=
  merge_sort String.le
    (elements (list_to_set (keys primary_totals_map ++ keys compare_totals_map)
                 : gset string)).

(** The body of [for cat in categories]: the row and the two slices it
    appends. *)
Definition comparison_body (primary_totals_map compare_totals_map : gmap string Qc)
    (cat : string) : result (comparison_row * slice * slice) :=
  let p := Num.round2 (default 0 (primary_totals_map !! cat)) in
  let c := Num.round2 (default 0 (compare_totals_map !! cat)) in
  let diff := Num.round2 (p - c) in
  pct ← (if decide (c = 0)
         then Ok (if decide (p = 0) then PctNone else PctStr "inf")
         else q ← Num.div diff c; Ok (PctNum (Num.round2 (q * Num.of_Z 100))));
  Ok ({| row_category := cat; row_primary := p; row_compare := c;
         row_diff := diff; row_pct_change := pct |},
      {| sl_category := cat; sl_value := p |},
      {| sl_category := cat; sl_value := c |}).

Definition build_comparison (primary_totals_map compare_totals_map : gmap string Qc)
  : result (list comparison_row * list slice * list slice) :=
  let categories := categories_of primary_totals_map compare_totals_map in
  rows ← mapM (comparison_body primary_totals_map compare_totals_map) categories;
  Ok (rows.*1.*1, rows.*1.*2, rows.*2).

(** ** Bar scaling *)

(** [max_bar_value], from the loop over the rows to the fallback. *)
Definition max_bar_value_loop (comparison : list comparison_row) : Qc :=
  foldl (λ acc r, Num.max3 acc (row_primary r) (row_compare r)) 0 comparison.

Definition max_bar_value_of (comparison : list comparison_row)
    (primary_total compare_total : Qc) : Qc :=
  let max_bar_value := max_bar_value_loop comparison in
  if decide (max_bar_value = 0)
  then Num.max3 primary_total compare_total 1
  else max_bar_value.

Definition vg_width : Z := 1200.
Definition left_padding : Z := 320.
Definition bar_max_width : Z := (vg_width - left_padding - vg_width / 3 - 40)%Z.

(** [(v / max_bar_value) * bar_max_width if max_bar_value else 0] *)
Definition bar_width (v max_bar_value : Qc) : result Qc :=
  if decide (max_bar_value ≠ 0)
  then q ← Num.div v max_bar_value; Ok (q * Num.of_Z bar_max_width)
  else Ok 0.

(** The widths [(p_w, c_w)] of the loop [for row in comparison]. *)
Definition bar_widths (comparison : list comparison_row) (max_bar_value : Qc)
  : result (list (Qc * Qc)) :=
  mapM (λ row,
          p_w ← bar_width (row_primary row) max_bar_value;
          c_w ← bar_width (row_compare row) max_bar_value;
          Ok (p_w, c_w)) comparison.

(** ** The summary handlers *)

(** The query parameters read with [request.args.get(.., type=int)]:
    [None] when the parameter is absent or is not an integer. *)
Record summary_args : Type := mkArgs {
  arg_month : option Z;
  arg_year : option Z;
  arg_compare_month : option Z;
  arg_compare_year : option Z
}.

(** What the handlers compute before they render. *)
Record summary_data : Type := mkSummary {
  sd_month : Z;
  sd_year : Z;
  sd_compare_month : Z;
  sd_compare_year : Z;
  sd_comparison : list comparison_row;
  sd_primary_total : Qc;
  sd_compare_total : Qc;
  sd_max_bar_value : Qc;
  sd_primary_pie : list pie_path;
  sd_compare_pie : list pie_path;
  sd_bars : list (Qc * Qc)
}.

Section summary_handlers.

Variables (radians cos sin : Qc → Qc) (fmt2 : Qc → string).

(** [calendar.month_name[month]] *)
Variable month_name : Z → result string.

(** [monthly_summary], for a logged-in session, up to the call of
    [render_template]; the page draws no bar from [sd_bars]. *)
Definition monthly_summary (table : list Expense) (today : date)
    (args : summary_args) : result summary_data :=
  let month := default (d_month today) (arg_month args) in
  let year := default (d_year today) (arg_year args) in
  '(compare_month, compare_year) ←
    resolve_compare month year (arg_compare_month args) (arg_compare_year args);
  let '(primary_totals_map, primary_total) := totals_for_month table month year in
  let '(compare_totals_map, compare_total) :=
    totals_for_month table compare_month compare_year in
  '(comparison, primary_slices, compare_slices) ←
    build_comparison primary_totals_map compare_totals_map;
  let overall_diff := Num.round2 (primary_total - compare_total) in
  overall_pct ← (if decide (compare_total = 0)
                 then Ok (if decide (primary_total = 0) then PctNone else PctStr "inf")
                 else q ← Num.div overall_diff compare_total;
                      Ok (PctNum (Num.round2 (q * Num.of_Z 100))));
  _ ← month_name month;
  _ ← month_name compare_month;
  let max_bar_value := max_bar_value_of comparison primary_total compare_total in
  primary_pie ← make_pie_paths radians cos sin fmt2 primary_slices primary_total
                   (Num.of_Z 120) (Num.of_Z 120) (Num.of_Z 100) None;
  compare_pie ← make_pie_paths radians cos sin fmt2 compare_slices compare_total
                   (Num.of_Z 120) (Num.of_Z 120) (Num.of_Z 100) None;
  Ok {| sd_month := month; sd_year := year;
        sd_compare_month := compare_month; sd_compare_year := compare_year;
        sd_comparison := comparison;
        sd_primary_total := Num.round2 primary_total;
        sd_compare_total := Num.round2 compare_total;
        sd_max_bar_value := max_bar_value;
        sd_primary_pie := primary_pie; sd_compare_pie := compare_pie;
        sd_bars := [] |}.

(** [download_summary_svg], for a logged-in session: the values the
    document is assembled from. *)
Definition download_summary_svg (table : list Expense) (today : date)
    (args : summary_args) : result summary_data :=
  let month := default (d_month today) (arg_month args) in
  let year := default (d_year today) (arg_year args) in
  '(compare_month, compare_year) ←
    resolve_compare month year (arg_compare_month args) (arg_compare_year args);
  let '(primary_totals_map, primary_total) := totals_for_month table month year in
  let '(compare_totals_map, compare_total) :=
    totals_for_month table compare_month compare_year in
  '(comparison, primary_slices, compare_slices) ←
    build_comparison primary_totals_map compare_totals_map;
  let max_bar_value := max_bar_value_of comparison primary_total compare_total in
  primary_pie ← make_pie_paths radians cos sin fmt2 primary_slices primary_total
                   (Num.of_Z 120) (Num.of_Z 120) (Num.of_Z 100) None;
  compare_pie ← make_pie_paths radians cos sin fmt2 compare_slices compare_total
                   (Num.of_Z 120) (Num.of_Z 120) (Num.of_Z 100) None;
  _ ← month_name month;
  _ ← month_name compare_month;
  bars ← bar_widths comparison max_bar_value;
  Ok {| sd_month := month; sd_year := year;
        sd_compare_month := compare_month; sd_compare_year := compare_year;
        sd_comparison := comparison;
        sd_primary_total := primary_total;
        sd_compare_total := compare_total;
        sd_max_bar_value := max_bar_value;
        sd_primary_pie := primary_pie; sd_compare_pie := compare_pie;
        sd_bars := bars |}.

End summary_handlers.

(** ** Creating and editing a record *)

Inductive response : Type :=
  | Redirect (endpoint : string)
  | RenderTemplate (name : string).

(** [request.form[k]]: a missing key aborts the request. *)
Definition form_get (form : gmap string string) (k : string) : result string :=
  match form !! k with
  | Some v => Ok v
  | None => Raise BadRequestKeyError
  end.

Section record_handlers.

(** [datetime.strptime(s, '%Y-%m-%d').date()] and [float(s)]. *)
Variables (strptime : string → result date) (to_float : string → result Qc).

(** [add_expense], for a logged-in session: the response and the table
    after the commit.  [today] is [datetime.utcnow().date()]. *)
Definition add_expense (method : string) (form : gmap string string)
    (today : date) (table : list Expense) : result (response * list Expense) :=
  if decide (method = "POST") then
    title ← form_get form "title";
    amount ← form_get form "amount";
    category ← form_get form "category";
    let date_str := default "" (form !! "date") in
    let date_val :=
      match (if decide (date_str ≠ "") then strptime date_str else Ok today) with
      | Ok d => d
      | Raise _ => today
      end in
    if decide (title = "" ∨ amount = "" ∨ category = "")
    then Ok (Redirect "add_expense", table)
    else
      a ← to_float amount;
      let exp := {| title := title; amount := a; category := category;
                    e_date := date_val |} in
      Ok (Redirect "index", table ++ [exp])
  else Ok (RenderTemplate "add_edit.html", table).

(** [edit_expense]: a row id is the position of the row in the table. *)
Definition edit_expense (expense_id : nat) (method : string)
    (form : gmap string string) (table : list Expense)
  : result (response * list Expense) :=
  match table !! expense_id with
  | None => Raise NotFound
  | Some expense =>
      if decide (method = "POST") then
        title ← form_get form "title";
        amount ← form_get form "amount";
        a ← to_float amount;
        category ← form_get form "category";
        let date_str := default "" (form !! "date") in
        let date_val :=
          match (if decide (date_str ≠ "") then strptime date_str
                 else Ok (e_date expense)) with
          | Ok d => d
          | Raise _ => e_date expense
          end in
        let expense' := {| title := title; amount := a; category := category;
                           e_date := date_val |} in
        Ok (Redirect "index", <[expense_id := expense']> table)
      else Ok (RenderTemplate "add_edit.html", table)
  end.

End record_handlers.

(** * The other handlers *)

(** ** Accounts and sessions *)

(** A row of the [user] table; its id is its position in the table. *)
Record User : Type := mkUser { u_username : string; u_password : string }.

(** A value of the session dictionary. *)
Inductive session_value : Type :=
  | SInt (n : nat)
  | SStr (s : string).

(** Where a response redirects to: [url_for(endpoint)],
    [url_for(endpoint, next=path)], or a URL taken from the request. *)
Inductive target : Type :=
  | Endpoint (name : string)
  | EndpointNext (name : string) (next : string)
  | Url (url : string).

Inductive auth_response : Type :=
  | RedirectTo (t : target)
  | Render (template : string).

(** A flashed message with its category. *)
Definition flash_message : Type := string * string.

(** What an account handler leaves behind: the response, the messages
    flashed, the user table and the session. *)
Record outcome : Type := mkOutcome {
  o_response : auth_response;
  o_flashes : list flash_message;
  o_users : list User;
  o_session : gmap string session_value
}.

(** [User.query.filter_by(username=name).first()] with the id of the row. *)
Definition find_user (users : list User) (name : string) : option (nat * User) :=
  list_find (λ u, u_username u = name) users.

Section accounts.

(** [str.strip], [generate_password_hash] and [check_password_hash]. *)
Variable strip : string → string.
Variable generate_password_hash : string → string.
Variable check_password_hash : string → string → bool.

(** [signup] *)
Definition signup (method : string) (form : gmap string string)
    (users : list User) (session : gmap string session_value) : outcome :=
  if decide (method = "POST") then
    let username := strip (default "" (form !! "username")) in
    let password := strip (default "" (form !! "password")) in
    if decide (username = "" ∨ password = "") then
      mkOutcome (RedirectTo (Endpoint "signup"))
        [("Please provide both username and password", "danger")] users session
    else if find_user users username is Some _ then
      mkOutcome (RedirectTo (Endpoint "signup"))
        [("Username already taken", "danger")] users session
    else
      let hashed_pw := generate_password_hash password in
      let user := {| u_username := username; u_password := hashed_pw |} in
      mkOutcome (RedirectTo (Endpoint "login"))
        [("Account created — please log in", "success")] (users ++ [user]) session
  else mkOutcome (Render "signup.html") [] users session.

(** [login]; [next] is [request.args.get('next')]. *)
Definition login (method : string) (form : gmap string string) (next : option string)
    (users : list User) (session : gmap string session_value) : outcome :=
  if decide (is_Some (session !! "user_id")) then
    mkOutcome (RedirectTo (Endpoint "index")) [] users session
  else if decide (method = "POST") then
    let username := strip (default "" (form !! "username")) in
    let password := strip (default "" (form !! "password")) in
    match find_user users username with
    | Some (id, user) =>
        if check_password_hash (u_password user) password then
          let session := <["user_id" := SInt id]> session in
          let session := <["username" := SStr (u_username user)]> session in
          let next_url :=
            match next with
            | Some u => if decide (u = "") then Endpoint "index" else Url u
            | None => Endpoint "index"
            end in
          mkOutcome (RedirectTo next_url) [("Logged in successfully", "success")]
            users session
        else
          mkOutcome (RedirectTo (Endpoint "login"))
            [("Invalid username or password", "danger")] users session
    | None =>
        mkOutcome (RedirectTo (Endpoint "login"))
          [("Invalid username or password", "danger")] users session
    end
  else mkOutcome (Render "login.html") [] users session.

End accounts.

(** [logout] *)
Definition logout (users : list User) (session : gmap string session_value) : outcome :=
  mkOutcome (RedirectTo (Endpoint "login")) [("Logged out", "info")] users ∅.

(** [current_user] *)
Definition current_user (users : list User) (session : gmap string session_value)
  : option User :=
  match session !! "user_id" with
  | Some (SInt id) => users !! id
  | _ => None
  end.

(** The decorator [login_required]: the wrapped view runs only in a
    session that holds a user id; otherwise the request is sent to the
    login page, which gets the requested path. *)
Definition login_required {A : Type} (view : A) (session : gmap string session_value)
    (path : string) : auth_response * list flash_message + A :=
  if decide (session !! "user_id" = None)
  then inl (RedirectTo (EndpointNext "login" path),
            [("Please log in to continue", "warning")])
  else inr view.

(** ** Listing, deleting *)

(** Dates compare as the triples (year, month, day). *)
Definition date_le (d1 d2 : date) : Prop :=
  (d_year d1 < d_year d2 ∨
   (d_year d1 = d_year d2 ∧
    (d_month d1 < d_month d2 ∨
     (d_month d1 = d_month d2 ∧ d_day d1 ≤ d_day d2))))%Z.

Global Instance date_le_dec : RelDecision date_le.
Proof. intros d1 d2. unfold date_le. apply _. Defined.

(** [order_by(Expense.date.desc())] *)
Definition date_desc (e1 e2 : Expense) : Prop := date_le (e_date e2) (e_date e1).

Global Instance date_desc_dec : RelDecision date_desc.
Proof. intros e1 e2. unfold date_desc. apply _. Defined.

Definition order_by_date_desc (rows : list Expense) : list Expense :=
  merge_sort date_desc rows.

(** [Expense.category == category] and the two [extract(..) == ..]. *)
Definition category_is (c : string) (e : Expense) : bool :=
  bool_decide (category e = c).
Definition year_is (year : Z) (e : Expense) : bool :=
  bool_decide (d_year (e_date e) = year).
Definition month_is (month : Z) (e : Expense) : bool :=
  bool_decide (d_month (e_date e) = month).

(** [query.filter] applied to the list of filters *)
Definition sql_filter (filters : list (Expense → bool)) (table : list Expense)
  : list Expense :=
  List.filter (λ e, forallb (λ f, f e) filters) table.

(** [db.func.sum(Expense.amount)]: the sum of no row is NULL. *)
Definition sql_sum (rows : list Expense) : option Qc :=
  match rows with
  | [] => None
  | _ => Some (foldl (λ acc e, acc + amount e) 0 rows)
  end.

(** The query parameters of the list page. *)
Record index_args : Type := mkIndexArgs {
  arg_q : option string;
  arg_category : option string;
  arg_filter_month : option Z;
  arg_filter_year : option Z
}.

(** What the list page is rendered with. *)
Record index_view : Type := mkIndexView {
  iv_expenses : list Expense;
  iv_month_total : Qc;
  iv_q : string;
  iv_selected_category : string;
  iv_filter_month : option Z;
  iv_filter_year : option Z
}.

Section index.

(** [str.strip], [str.lower], and the SQL operator [ILIKE] (pattern first). *)
Variables (strip lower : string → string) (ilike : string → string → bool).

(** The list [filters] the route builds. *)
Definition index_filters (args : index_args) : list (Expense → bool) :=
  let q := strip (default "" (arg_q args)) in
  let category := strip (default "all" (arg_category args)) in
  let month := arg_filter_month args in
  let year := arg_filter_year args in
  let filters := [] in
  let filters :=
    if decide (q ≠ "")
    then filters ++ [λ e, ilike ("%" +:+ q +:+ "%") (title e)] else filters in
  let filters :=
    if decide (category ≠ "" ∧ lower category ≠ "all")
    then filters ++ [category_is category] else filters in
  let filters :=
    match month, year with
    | Some m, Some y =>
        if decide (m ≠ 0%Z ∧ y ≠ 0%Z)
        then filters ++ [year_is y; month_is m] else filters
    | _, _ => filters
    end in
  filters.

(** [index], for a logged-in session. *)
Definition index (table : list Expense) (args : index_args) : index_view :=
  let q := strip (default "" (arg_q args)) in
  let category := strip (default "all" (arg_category args)) in
  let filters := index_filters args in
  let expenses :=
    if decide (filters ≠ [])
    then order_by_date_desc (sql_filter filters table)
    else order_by_date_desc table in
  let sum_query := if decide (filters ≠ []) then sql_filter filters table else table in
  let month_total :=
    match sql_sum sum_query with
    | Some s => if decide (s = 0) then 0 else s
    | None => 0
    end in
  let month_total := Num.round2 month_total in
  {| iv_expenses := expenses; iv_month_total := month_total; iv_q := q;
     iv_selected_category := category;
     iv_filter_month := arg_filter_month args;
     iv_filter_year := arg_filter_year args |}.

End index.

(** [confirm_delete_page]: the record the page is rendered with. *)
Definition confirm_delete_page (expense_id : nat) (table : list Expense)
  : result (response * Expense) :=
  match table !! expense_id with
  | None => Raise NotFound
  | Some expense => Ok (RenderTemplate "confirm_delete.html", expense)
  end.

(** [delete_expense]: the response and the table after the commit.  The
    table is the list of the rows, a key being the position of its row; a
    deletion leaves the other rows, in their order. *)
Definition delete_expense (expense_id : nat) (table : list Expense)
  : result (response * list Expense) :=
  match table !! expense_id with
  | None => Raise NotFound
  | Some expense => Ok (Redirect "index", delete expense_id table)
  end.

(** ** The document of [download_summary_svg] *)

(** The text of a literal of the source: its double quotes are written as
    apostrophes here (no literal of the source holds an apostrophe). *)
Fixpoint lit (s : string) : string :=
  match s with
  | EmptyString => EmptyString
  | String a s' =>
      String (if Ascii.eqb a (Ascii.ascii_of_nat 39) then Ascii.ascii_of_nat 34 else a) (lit s')
  end.

Definition newline : string := String (Ascii.ascii_of_nat 10) EmptyString.

Definition row_h : Z := 56.
Definition top_margin : Z := 42.
Definition right_padding : Z := 40.
Definition pie_area_height : Z := 280.
Definition pie2_top : Z := 320.

Definition bar_area_height (rows : Z) : Z := (top_margin + rows * row_h + 40)%Z.
Definition vg_height (rows : Z) : Z :=
  Z.max (bar_area_height rows) (pie_area_height + 40).
Definition pie_left : Z := (left_padding + bar_max_width + 40)%Z.

Definition legend_colors : list string :=
  ["#3A9AD9"; "#FF6B78"; "#FFD166"; "#6BCB77"; "#8E63FF"; "#FF9F80"].

(** The response of the download. *)
Record svg_response : Type := mkSvgResponse {
  body : string;
  mimetype : string;
  content_disposition : string
}.

Section svg_document.

(** The format [:.2f], [str] of a float, and [calendar.month_name]. *)
Variables (fmt2 str_float : Qc → string) (month_name : Z → result string).

(** The amount beside a bar. *)
Definition amount_label (v : Qc) : string :=
  if decide (0 < v) then "₹" +:+ fmt2 v else "-".

(** The parts one turn of [for row in comparison] appends, at height [y]. *)
Definition bar_row_parts (max_bar_value : Qc) (y : Z) (row : comparison_row)
  : result (list string) :=
  let p := row_primary row in
  let c := row_compare row in
  p_w ← bar_width p max_bar_value;
  c_w ← bar_width c max_bar_value;
  Ok [ lit "<text x='20' y='" +:+ pretty (y + 10)%Z +:+
         lit "' font-family='Arial, sans-serif' font-size='13' fill='#222'>" +:+
         row_category row +:+ "</text>";
       lit "<rect x='" +:+ pretty left_padding +:+ lit "' y='" +:+ pretty (y - 8)%Z +:+
         lit "' width='" +:+ fmt2 p_w +:+ lit "' height='14' rx='6' fill='#3A9AD9'/>";
       lit "<text x='" +:+ str_float (Num.of_Z left_padding + p_w + Num.of_Z 10) +:+
         lit "' y='" +:+ pretty (y + 2)%Z +:+
         lit "' font-family='Arial, sans-serif' font-size='12' fill='#222'>" +:+
         amount_label p +:+ "</text>";
       lit "<rect x='" +:+ pretty left_padding +:+ lit "' y='" +:+ pretty (y + 12)%Z +:+
         lit "' width='" +:+ fmt2 c_w +:+ lit "' height='14' rx='6' fill='#FF6B78'/>";
       lit "<text x='" +:+ str_float (Num.of_Z left_padding + c_w + Num.of_Z 10) +:+
         lit "' y='" +:+ pretty (y + 22)%Z +:+
         lit "' font-family='Arial, sans-serif' font-size='12' fill='#222'>" +:+
         amount_label c +:+ "</text>" ].

(** The loop over the rows, [y] growing by [row_h]. *)
Fixpoint bar_parts (max_bar_value : Qc) (y : Z) (comparison : list comparison_row)
  : result (list string) :=
  match comparison with
  | [] => Ok []
  | row :: rest =>
      ps ← bar_row_parts max_bar_value y row;
      qs ← bar_parts max_bar_value (y + row_h)%Z rest;
      Ok (ps ++ qs)
  end.

(** The inside of a pie: its slices and their labels, or the placeholder. *)
Definition pie_parts (pie : list pie_path) : list string :=
  match pie with
  | [] =>
      [ lit "<circle cx='120' cy='120' r='90' fill='#f1f3f5'></circle>";
        lit "<text x='120' y='120' text-anchor='middle' dominant-baseline='middle' font-family='Arial, sans-serif' font-size='12' fill='#666'>No data</text>" ]
  | _ =>
      ((λ s, lit "<path d='" +:+ p_d s +:+ lit "' fill='" +:+ p_color s +:+
             lit "' stroke='#fff' stroke-width='1'></path>") <$> pie) ++
      ((λ s, lit "<text x='" +:+ fmt2 (p_label_x s) +:+ lit "' y='" +:+
             fmt2 (p_label_y s) +:+
             lit "' font-family='Arial, sans-serif' font-size='10' fill='#111' text-anchor='middle' dominant-baseline='middle'>" +:+
             str_float (p_pct s) +:+ "%</text>") <$> pie)
  end.

(** A pie with its title line, placed at height [top]. *)
Definition pie_group (top : Z) (name : string) (year : Z) (total : Qc)
    (pie : list pie_path) : list string :=
  [ lit "<g transform='translate(" +:+ pretty pie_left +:+ ", " +:+ pretty top +:+
      lit ")'>";
    lit "<text x='0' y='0' font-family='Arial, sans-serif' font-size='13' fill='#222'>" +:+
      name +:+ " " +:+ pretty year +:+ " (Total ₹" +:+ fmt2 total +:+ ")</text>";
    lit "<svg x='0' y='12' viewBox='0 0 240 240' width='240' height='240' xmlns='http://www.w3.org/2000/svg'>" ]
  ++ pie_parts pie ++ [ "</svg>"; "</g>" ].

(** The two parts of a legend entry. *)
Definition legend_entry (i : nat) (cat : string) : result (list string) :=
  col ← palette_at legend_colors i;
  Ok [ lit "<rect x='" +:+ pretty (Z.of_nat i * 160)%Z +:+
         lit "' y='0' width='12' height='10' fill='" +:+ col +:+ lit "'></rect>";
       lit "<text x='" +:+ pretty (Z.of_nat i * 160 + 18)%Z +:+ lit "' y='9'>" +:+
         cat +:+ "</text>" ].

Fixpoint legend_parts (i : nat) (categories : list string) : result (list string) :=
  match categories with
  | [] => Ok []
  | cat :: rest =>
      ps ← legend_entry i cat;
      qs ← legend_parts (S i) rest;
      Ok (ps ++ qs)
  end.

(** The list [parts] of the document. *)
Definition svg_parts (month year compare_month compare_year : Z)
    (categories : list string) (comparison : list comparison_row)
    (max_bar_value primary_total compare_total : Qc)
    (primary_pie compare_pie : list pie_path) : result (list string) :=
  let rows := Z.of_nat (length comparison) in
  let vg_height := vg_height rows in
  name ← month_name month;
  compare_name ← month_name compare_month;
  bars ← bar_parts max_bar_value top_margin comparison;
  legend ← legend_parts 0 categories;
  Ok ([ lit "<?xml version='1.0' encoding='UTF-8'?>";
        lit "<svg xmlns='http://www.w3.org/2000/svg' viewBox='0 0 " +:+
          pretty vg_width +:+ " " +:+ pretty vg_height +:+ lit "'>";
        lit "<text x='20' y='24' font-family='Arial, sans-serif' font-size='18' fill='#222'>Comparison: " +:+
          name +:+ " " +:+ pretty year +:+ " vs " +:+ compare_name +:+ " " +:+
          pretty compare_year +:+ "</text>";
        lit "<g transform='translate(20,32)' font-family='Arial, sans-serif' font-size='12'>";
        lit "<rect x='0' y='0' width='14' height='10' fill='#3A9AD9'></rect><text x='20' y='9'>" +:+
          name +:+ " " +:+ pretty year +:+ "</text>";
        lit "<rect x='220' y='0' width='14' height='10' fill='#FF6B78'></rect><text x='244' y='9'>" +:+
          compare_name +:+ " " +:+ pretty compare_year +:+ "</text>";
        "</g>" ]
      ++ bars ++
      [ lit "<g transform='translate(" +:+ pretty left_padding +:+ ", " +:+
          pretty (vg_height - 22)%Z +:+
          lit ")' font-family='Arial, sans-serif' font-size='12' fill='#444'>";
        lit "<text x='0' y='12'>0</text>";
        lit "<text x='" +:+ pretty bar_max_width +:+
          lit "' y='12' text-anchor='end'>₹" +:+ fmt2 max_bar_value +:+ "</text>";
        "</g>" ]
      ++ pie_group 40 name year primary_total primary_pie
      ++ pie_group pie2_top compare_name compare_year compare_total compare_pie
      ++ [ lit "<g transform='translate(" +:+ pretty pie_left +:+ ", " +:+
             pretty (vg_height - 80)%Z +:+
             lit ")' font-family='Arial, sans-serif' font-size='12'>" ]
      ++ legend ++ [ "</g>"; "</svg>" ]).

(** [filename] *)
Definition svg_filename (month year compare_month compare_year : Z) : string :=
  "comparison_" +:+ pretty year +:+ "_" +:+ pretty month +:+ "_vs_" +:+
  pretty compare_year +:+ "_" +:+ pretty compare_month +:+ ".svg".

Variables (radians cos sin : Qc → Qc).

(** [download_summary_svg], for a logged-in session, to its response. *)
Definition download_summary_svg_response (table : list Expense) (today : date)
    (args : summary_args) : result svg_response :=
  let month := default (d_month today) (arg_month args) in
  let year := default (d_year today) (arg_year args) in
  '(compare_month, compare_year) ←
    resolve_compare month year (arg_compare_month args) (arg_compare_year args);
  let '(primary_totals_map, primary_total) := totals_for_month table month year in
  let '(compare_totals_map, compare_total) :=
    totals_for_month table compare_month compare_year in
  let categories := categories_of primary_totals_map compare_totals_map in
  rows ← mapM (comparison_body primary_totals_map compare_totals_map) categories;
  let comparison := rows.*1.*1 in
  let primary_slices := rows.*1.*2 in
  let compare_slices := rows.*2 in
  let max_bar_value := max_bar_value_of comparison primary_total compare_total in
  primary_pie ← make_pie_paths radians cos sin fmt2 primary_slices primary_total
                   (Num.of_Z 120) (Num.of_Z 120) (Num.of_Z 100) None;
  compare_pie ← make_pie_paths radians cos sin fmt2 compare_slices compare_total
                   (Num.of_Z 120) (Num.of_Z 120) (Num.of_Z 100) None;
  parts ← svg_parts month year compare_month compare_year categories comparison
             max_bar_value primary_total compare_total primary_pie compare_pie;
  let svg_text := String.concat newline parts in
  let filename := svg_filename month year compare_month compare_year in
  Ok {| body := svg_text;
        mimetype := "image/svg+xml";
        content_disposition := lit "attachment; filename='" +:+ filename +:+ lit "'" |}.

End svg_document.

(** * The arithmetic on binary floating point

    The sums of [totals_for_month] and the percent change of a comparison
    row depend on how the program's floats round.  These two parts of the
    code are embedded here once more, over binary64 numbers: what is
    stated of them holds of the additions, divisions and roundings the
    program performs, bit for bit. *)

Module Binary64.

Import SpecFloat.

(** A Python float: an IEEE 754 binary64 number, [(-1)^s * m * 2^e] when
    finite, with [m] below 2^53 and [e] as small as the format allows;
    every operation rounds to nearest, ties to even, and returns a number
    of that form. *)
Definition float : Type := spec_float.
Definition prec : Z := 53.
Definition emax : Z := 1024.

Definition zero : float := S754_zero false.

Definition add : float → float → float := SFadd prec emax.
Definition sub : float → float → float := SFsub prec emax.
Definition mul : float → float → float := SFmul prec emax.
Definition quot : float → float → float := SFdiv prec emax.

(** [x == y], [x < y], [x <= y] *)
Definition eqb : float → float → bool := SFeqb.
Definition ltb : float → float → bool := SFltb.
Definition leb : float → float → bool := SFleb.

(** [x / y] *)
Definition div (x y : float) : result float :=
  if eqb y zero then Raise ZeroDivisionError else Ok (quot x y).

(** The float nearest to the fraction [n / d]. *)
Definition nearest (s : bool) (n d : positive) : float :=
  SFdiv prec emax (S754_finite s n 0) (S754_finite false d 0).

(** The float an integer converts to. *)
Definition of_Z (n : Z) : float := binary_normalize prec emax n 0 false.

(** The float a decimal numeral denotes, [float("12.50")] being
    [of_decimal 1250 2]: the float nearest to [n / 10^k]. *)
Definition of_decimal (n : Z) (k : nat) : float :=
  match n with
  | Z0 => zero
  | Zpos p => nearest false p (Z.to_pos (10 ^ Z.of_nat k))
  | Zneg p => nearest true p (Z.to_pos (10 ^ Z.of_nat k))
  end.

(** [num / den] rounded to an integer, ties to even. *)
Definition round_half_even_div (num den : Z) : Z :=
  let q := (num / den)%Z in
  let r := (num mod den)%Z in
  match (2 * r ?= den)%Z with
  | Lt => q
  | Gt => (q + 1)%Z
  | Eq => if Z.even q then q else (q + 1)%Z
  end.

(** [round(x, ndigits)] for [ndigits >= 0]: the exact value of the float
    is rounded to [ndigits] decimals, ties to even, and the decimal
    numeral obtained is converted back to the nearest float. *)
Definition round (x : float) (ndigits : nat) : float :=
  match x with
  | S754_finite s m e =>
      let scale := (10 ^ Z.of_nat ndigits)%Z in
      let n :=
        match e with
        | Zneg p => round_half_even_div (Zpos m * scale) (2 ^ Zpos p)
        | _ => (Zpos m * 2 ^ e * scale)%Z
        end in
      match n with
      | Zpos p => nearest s p (Z.to_pos scale)
      | _ => S754_zero s
      end
  | _ => x
  end.

(** A dictionary with string keys and float values, in insertion order. *)
Definition dict : Type := list (string * float).

(** [d.get(k)] *)
Fixpoint dict_get (d : dict) (k : string) : option float :=
  match d with
  | [] => None
  | (k', v) :: d' => if decide (k' = k) then Some v else dict_get d' k
  end.

(** [d[k] = v] *)
Fixpoint dict_set (d : dict) (k : string) (v : float) : dict :=
  match d with
  | [] => [(k, v)]
  | (k', v') :: d' =>
      if decide (k' = k) then (k', v) :: d' else (k', v') :: dict_set d' k v
  end.

(** [list(d.keys())] and [d.values()] *)
Definition keys (d : dict) : list string := d.*1.
Definition values (d : dict) : list float := d.*2.

(** A row of the [expense] table. *)
Record Expense : Type := mkExpense {
  title : string;
  amount : float;
  category : string;
  e_date : date
}.

Definition in_month (month year : Z) (e : Expense) : bool :=
  bool_decide (d_year (e_date e) = year) && bool_decide (d_month (e_date e) = month).

Definition query_month (table : list Expense) (month year : Z) : list Expense :=
  List.filter (in_month month year) table.

(** One turn of the loop of [totals_for_month]:
    [totals[e.category] = totals.get(e.category, 0.0) + e.amount;
    total += e.amount]. *)
Definition totals_step (acc : dict * float) (e : Expense) : dict * float :=
  let '(totals, total) := acc in
  (dict_set totals (category e)
     (add (default zero (dict_get totals (category e))) (amount e)),
   add total (amount e)).

Definition totals_for_month (table : list Expense) (month year : Z) : dict * float :=
  foldl totals_step ([], zero) (query_month table month year).

(** The value of [pct_change]: [None], a string, or a float. *)
Inductive pct_value : Type :=
  | PctNone
  | PctStr (s : string)
  | PctNum (x : float).

Record comparison_row : Type := mkRow {
  row_category : string;
  row_primary : float;
  row_compare : float;
  row_diff : float;
  row_pct_change : pct_value
}.

Record slice : Type := mkSlice { sl_category : string; sl_value : float }.

(** [sorted(set(list(primary_totals_map.keys()) +
    list(compare_totals_map.keys())))] *)
Definition categories_of (primary_totals_map compare_totals_map : dict) : list string :=
  merge_sort String.le
    (elements (list_to_set (keys primary_totals_map ++ keys compare_totals_map)
                 : gset string)).

(** The body of [for cat in categories], in [monthly_summary] and in
    [download_summary_svg]. *)
Definition comparison_body (primary_totals_map compare_totals_map : dict)
    (cat : string) : result (comparison_row * slice * slice) :=
  let p := round (default zero (dict_get primary_totals_map cat)) 2 in
  let c := round (default zero (dict_get compare_totals_map cat)) 2 in
  let diff := round (sub p c) 2 in
  pct ← (if eqb c zero
         then Ok (if eqb p zero then PctNone else PctStr "inf")
         else q ← div diff c; Ok (PctNum (round (mul q (of_Z 100)) 2)));
  Ok ({| row_category := cat; row_primary := p; row_compare := c;
         row_diff := diff; row_pct_change := pct |},
      {| sl_category := cat; sl_value := p |},
      {| sl_category := cat; sl_value := c |}).

Definition build_comparison (primary_totals_map compare_totals_map : dict)
  : result (list comparison_row * list slice * list slice) :=
  let categories := categories_of primary_totals_map compare_totals_map in
  rows ← mapM (comparison_body primary_totals_map compare_totals_map) categories;
  Ok (rows.*1.*1, rows.*1.*2, rows.*2).

End Binary64.

(** * Definitions for the statements

    What the properties below are stated with: the rows, sums, drawing
    commands and emitted slices the code is compared against, and the
    inputs of the examples. *)

(** ** Comparison rows *)

(** The loop body never raises: the row it computes. *)
Definition row_of (pm cm : gmap string Qc) (cat : string) : comparison_row :=
  let p := Num.round2 (default 0 (pm !! cat)) in
  let c := Num.round2 (default 0 (cm !! cat)) in
  {| row_category := cat; row_primary := p; row_compare := c;
     row_diff := p - c;
     row_pct_change :=
       if decide (c = 0)
       then (if decide (p = 0) then PctNone else PctStr "inf")
       else PctNum (Num.round2 ((p - c) / c * Num.of_Z 100)) |}.

(** ** The aggregator *)

(** [sum(totals.values())] *)
Definition sum_values (m : gmap string Qc) : Qc :=
  map_fold (λ _ v acc, acc + v) 0 m.

(** The sum of the amounts of a list of records. *)
Definition sum_amounts (l : list Expense) : Qc :=
  foldr (λ e acc, amount e + acc) 0 l.

(** ** The pie-slice builder *)

(** A path description as a sequence of drawing commands, and its text. *)
Inductive svg_cmd : Type :=
  | MoveTo (x y : Qc)
  | LineTo (x y : Qc)
  | ArcTo (rx ry : Qc) (x_axis_rotation : Z) (large_arc sweep : bool) (x y : Qc)
  | ClosePath.

Definition flag (b : bool) : string := if b then "1" else "0".

(** [enumerate(slices)] *)
Definition enumerate {A : Type} (l : list A) : list (nat * A) := imap pair l.

Definition sum_list (l : list Qc) : Qc := foldr Qcplus 0 l.

Section pie_specification.

Variables (radians cos sin : Qc → Qc) (fmt2 : Qc → string).
Variables (total cx cy r : Qc) (colors : list string).

Definition render_cmd (c : svg_cmd) : string :=
  match c with
  | MoveTo x y => "M " +:+ fmt2 x +:+ "," +:+ fmt2 y
  | LineTo x y => "L " +:+ fmt2 x +:+ "," +:+ fmt2 y
  | ArcTo rx ry rot la sw x y =>
      "A " +:+ fmt2 rx +:+ "," +:+ fmt2 ry +:+ " " +:+ pretty rot +:+ " " +:+
      flag la +:+ "," +:+ flag sw +:+ " " +:+ fmt2 x +:+ "," +:+ fmt2 y
  | ClosePath => "Z"
  end.

Definition render_path (cs : list svg_cmd) : string :=
  String.concat " " (render_cmd <$> cs).

(** The angular span of a slice, in degrees. *)
Definition span (s : slice) : Qc := sl_value s / total * Num.of_Z 360.

(** The point of the circle at [angle] degrees clockwise from the top. *)
Definition arc_x (angle : Qc) : Qc := cx + r * cos (radians (angle - Num.of_Z 90)).
Definition arc_y (angle : Qc) : Qc := cy + r * sin (radians (angle - Num.of_Z 90)).

(** The slice emitted for input slice [s] at input position [i], when the
    running start angle is [start]. *)
Definition emit (start : Qc) (i : nat) (s : slice) : pie_path :=
  let mid := start + span s / Num.of_Z 2 in
  {| p_d := path_d fmt2 cx cy r (arc_x start) (arc_y start)
              (arc_x (start + span s)) (arc_y (start + span s))
              (if decide (Num.of_Z 180 < span s) then 1%Z else 0%Z);
     p_color := default "" (colors !! (i mod length colors)%nat);
     p_label_x := cx + r * Q2Qc (62 # 100) * cos (radians (mid - Num.of_Z 90));
     p_label_y := cy + r * Q2Qc (62 # 100) * sin (radians (mid - Num.of_Z 90));
     p_label := sl_category s;
     p_value := Num.round2 (sl_value s);
     p_pct := Num.round2 (sl_value s / total * Num.of_Z 100) |}.

(** The emitted slices of a run from position [i] and angle [start]: input
    position, running start angle, input slice. *)
Fixpoint emitted (start : Qc) (i : nat) (slices : list slice) : list (nat * Qc * slice) :=
  match slices with
  | [] => []
  | s :: rest =>
      if decide (sl_value s ≤ 0) then emitted start (S i) rest
      else (i, start, s) :: emitted (start + span s) (S i) rest
  end.

(** The running angle at the end of such a run. *)
Fixpoint end_angle (start : Qc) (slices : list slice) : Qc :=
  match slices with
  | [] => start
  | s :: rest =>
      if decide (sl_value s ≤ 0) then end_angle start rest
      else end_angle (start + span s) rest
  end.

Definition emit3 (x : nat * Qc * slice) : pie_path := emit x.1.2 x.1.1 x.2.

End pie_specification.

(** The slices Food 100, Travel 0, Bills 50 of total 150. *)
Definition example_slices : list slice :=
  [mkSlice "Food" (Num.of_Z 100); mkSlice "Travel" 0; mkSlice "Bills" (Num.of_Z 50)].

(** Stand-ins for the library functions, enough to run the builder. *)
Definition example_trig (x : Qc) : Qc := x.
Definition example_fmt2 (x : Qc) : string := pretty (Qfloor x).

(** ** The default comparison period *)

(** What the default is, case by case: the constructor [date] refuses an
    argument that is no C int, a year outside 1..9999 and a month outside
    1..12, and no date precedes 1 January of year 1. *)
Definition previous_month (month year : Z) : result (Z * Z) :=
  if negb (PyDate.fits_int year && PyDate.fits_int month) then Raise OverflowError
  else if negb ((1 <=? year)%Z && (year <=? 9999)%Z) then Raise ValueError
  else if negb ((1 <=? month)%Z && (month <=? 12)%Z) then Raise ValueError
  else if (year =? 1)%Z && (month =? 1)%Z then Raise OverflowError
  else if (2 <=? month)%Z then Ok ((month - 1)%Z, year)
  else Ok (12%Z, (year - 1)%Z).

Local Open Scope Z_scope.

(** One cycle, checked by computation: the day before the first of month
    [m >= 2] of year [y] lies in month [m - 1] of [y], and the day before
    1 January of year [y + 1] in December of [y]. *)
Definition check_cycle_month (y m : Z) : bool :=
  let o := PyDate.days_before_year y + PyDate.days_before_month y m in
  (1 <=? o) && (o <=? 146097) &&
  (d_year (PyDate.ord2ymd o) =? y) && (d_month (PyDate.ord2ymd o) =? m - 1).

Definition check_cycle_january (y : Z) : bool :=
  let o := PyDate.days_before_year (y + 1) in
  (1 <=? o) && (o <=? 146097) &&
  (d_year (PyDate.ord2ymd o) =? y) && (d_month (PyDate.ord2ymd o) =? 12).

Definition check_cycle_year (y : Z) : bool :=
  forallb (check_cycle_month y) (seqZ 2 11) && check_cycle_january y.

Local Open Scope Qc_scope.

(** ** The date of a record *)

(** A request with the date field "not-a-date", on a table of one record
    dated 2024-01-15, handled on 2024-03-01. *)
Definition example_strptime (s : string) : result date :=
  if decide (s = "2024-01-15") then Ok (Date 2024 1 15) else Raise ValueError.

Definition example_to_float (s : string) : result Qc :=
  if decide (s = "12.50") then Ok (Q2Qc (25 # 2)) else Raise ValueError.

Definition example_form : gmap string string :=
  {[ "title" := "Lunch"; "amount" := "12.50"; "category" := "Food";
     "date" := "not-a-date" ]}.

Definition example_table : list Expense :=
  [{| title := "Lunch"; amount := Num.of_Z 10; category := "Food";
      e_date := Date 2024 1 15 |}].

Definition example_today : date := Date 2024 3 1.

(** ** The aggregator by category *)

(** The records of a list with a given category. *)
Definition of_category (cat : string) (rows : list Expense) : list Expense :=
  filter (λ e, category e = cat) rows.

(** ** Examples for the handlers *)

(** A form with an empty title and no date. *)
Definition example_untitled_form : gmap string string :=
  {[ "title" := ""; "amount" := "12.50"; "category" := "Food" ]}.

(** Stand-ins for [str.strip] and the two hash functions, enough to run
    the account handlers. *)
Definition example_strip (s : string) : string := s.
Definition example_hash (password : string) : string := "hash:" +:+ password.
Definition example_check (pwhash password : string) : bool :=
  bool_decide (pwhash = example_hash password).

Definition example_users : list User :=
  [{| u_username := "ann"; u_password := example_hash "secret" |}].

Definition example_signup_form : gmap string string :=
  {[ "username" := "bob"; "password" := "pass" ]}.

Definition example_login_form : gmap string string :=
  {[ "username" := "ann"; "password" := "secret" ]}.

(** A stand-in for [calendar.month_name] on the indices 0 to 12. *)
Definition example_month_name (m : Z) : result string :=
  if decide (0 ≤ m)%Z then
    match ["" ; "January"; "February"; "March"; "April"; "May"; "June"; "July";
           "August"; "September"; "October"; "November"; "December"] !! Z.to_nat m with
    | Some name => Ok name
    | None => Raise IndexError
    end
  else Raise IndexError.

Definition example_rows : list comparison_row :=
  [row_of {[ "Food" := Num.of_Z 100 ]} {[ "Food" := Num.of_Z 50 ]} "Food"].

(** A request for January 2024, to be compared with the month before. *)
Definition example_args : summary_args :=
  {| arg_month := Some 1%Z; arg_year := Some 2024%Z;
     arg_compare_month := None; arg_compare_year := None |}.

(** ** Sums of floats *)

(** The sum of a list of floats, taken from the left, from 0.0. *)
Definition float_sum (l : list Binary64.float) : Binary64.float :=
  foldl Binary64.add Binary64.zero l.

(** The amounts of the records of a category, in their order. *)
Definition amounts_of (cat : string) (rows : list Binary64.Expense)
  : list Binary64.float :=
  Binary64.amount <$> filter (λ e, Binary64.category e = cat) rows.

(** The comparison row of a category, on floats. *)
Definition float_row (pm cm : Binary64.dict) (cat : string) : Binary64.comparison_row :=
  let p := Binary64.round (default Binary64.zero (Binary64.dict_get pm cat)) 2 in
  let c := Binary64.round (default Binary64.zero (Binary64.dict_get cm cat)) 2 in
  let d := Binary64.round (Binary64.sub p c) 2 in
  {| Binary64.row_category := cat; Binary64.row_primary := p;
     Binary64.row_compare := c; Binary64.row_diff := d;
     Binary64.row_pct_change :=
       if Binary64.eqb c Binary64.zero
       then (if Binary64.eqb p Binary64.zero
             then Binary64.PctNone else Binary64.PctStr "inf")
       else Binary64.PctNum
              (Binary64.round (Binary64.mul (Binary64.quot d c) (Binary64.of_Z 100)) 2) |}.

(** The month of March 2024 with three records, of 0.01, 0.01 and 0.08. *)
Definition example_cents : list Binary64.Expense :=
  [ Binary64.mkExpense "Tea" (Binary64.of_decimal 1 2) "Food" (Date 2024 3 1);
    Binary64.mkExpense "Bus" (Binary64.of_decimal 1 2) "Travel" (Date 2024 3 2);
    Binary64.mkExpense "Bun" (Binary64.of_decimal 8 2) "Food" (Date 2024 3 3) ].

(** * Properties *)

(** ** Rounding to two decimals *)

Lemma of_Z_100_neq_0 : Num.of_Z 100 ≠ 0.
Proof. rewrite <- Z2Qc_inj_0. unfold Num.of_Z. intros H%Z2Qc_inj. discriminate. Qed.

Lemma round_half_even_of_Z (n : Z) : Num.round_half_even (Num.of_Z n) = n.
Proof.
  unfold Num.round_half_even, Num.of_Z. simpl this. rewrite Qfloor_Z.
  replace (Qc_of_Z n - Qc_of_Z n) with 0 by ring.
  destruct (decide (0 < Q2Qc (1 # 2))) as [_|H]; [done|].
  exfalso. apply H. reflexivity.
Qed.

(** A number of hundredths is its own rounding. *)
Lemma round2_hundredths (n : Z) :
  Num.round2 (Num.of_Z n / Num.of_Z 100) = Num.of_Z n / Num.of_Z 100.
Proof.
  unfold Num.round2.
  replace (Num.of_Z n / Num.of_Z 100 * Num.of_Z 100) with (Num.of_Z n)
    by (field; apply of_Z_100_neq_0).
  by rewrite round_half_even_of_Z.
Qed.

Lemma round2_is_hundredths (x : Qc) :
  ∃ n : Z, Num.round2 x = Num.of_Z n / Num.of_Z 100.
Proof. unfold Num.round2. eauto. Qed.

(** Rounding is idempotent. *)
Lemma round2_idemp (x : Qc) : Num.round2 (Num.round2 x) = Num.round2 x.
Proof. destruct (round2_is_hundredths x) as [n ->]. apply round2_hundredths. Qed.

(** The difference of two rounded amounts needs no rounding. *)
Lemma round2_sub_rounded (x y : Qc) :
  Num.round2 (Num.round2 x - Num.round2 y) = Num.round2 x - Num.round2 y.
Proof.
  destruct (round2_is_hundredths x) as [n ->].
  destruct (round2_is_hundredths y) as [m ->].
  replace (Num.of_Z n / Num.of_Z 100 - Num.of_Z m / Num.of_Z 100)
    with (Num.of_Z (n - m) / Num.of_Z 100).
  - apply round2_hundredths.
  - unfold Num.of_Z. rewrite Z2Qc_inj_sub. field. apply of_Z_100_neq_0.
Qed.

Lemma div_nonzero (a b : Qc) : b ≠ 0 → Num.div a b = Ok (a / b).
Proof. intros Hb. unfold Num.div. by destruct (decide (b = 0)). Qed.

(** ** The [result] monad *)

Lemma result_bind_Ok {A B : Type} (a : A) (k : A → result B) : (Ok a ≫= k) = k a.
Proof. done. Qed.

Lemma bind_Ok {A B : Type} (r : result A) (k : A → result B) (b : B) :
  (r ≫= k) = Ok b ↔ ∃ a, r = Ok a ∧ k a = Ok b.
Proof.
  destruct r as [a|e]; simpl; split.
  - eauto.
  - by intros (a' & [= <-] & ?).
  - done.
  - by intros (? & ? & ?).
Qed.

Lemma mapM_Ok_Forall2 {A B : Type} (f : A → result B) (l : list A) (bs : list B) :
  mapM f l = Ok bs ↔ Forall2 (λ a b, f a = Ok b) l bs.
Proof.
  revert bs. induction l as [|a l IH]; intros bs; simpl.
  - split.
    + intros [= <-]. constructor.
    + by inversion 1.
  - split.
    + intros (b & Hb & (bs' & Hbs & [= <-])%bind_Ok)%bind_Ok.
      constructor; [done|]. by apply IH.
    + inversion 1 as [|? b ? bs' Hb Hbs]; subst.
      apply IH in Hbs. rewrite Hb; simpl. by rewrite Hbs.
Qed.

Lemma mapM_total {A B : Type} (f : A → result B) (g : A → B) (l : list A) :
  (∀ a, f a = Ok (g a)) → mapM f l = Ok (g <$> l).
Proof.
  intros Hf. induction l as [|a l IH]; simpl; [done|].
  rewrite Hf; simpl. by rewrite IH.
Qed.

(** ** Comparison rows *)

Lemma comparison_body_Ok (pm cm : gmap string Qc) (cat : string) :
  comparison_body pm cm cat =
    Ok (row_of pm cm cat,
        mkSlice cat (Num.round2 (default 0 (pm !! cat))),
        mkSlice cat (Num.round2 (default 0 (cm !! cat)))).
Proof.
  unfold comparison_body, row_of.
  rewrite round2_sub_rounded.
  destruct (decide (Num.round2 (default 0 (cm !! cat)) = 0)) as [Hc|Hc]; [done|].
  by rewrite div_nonzero.
Qed.

Lemma build_comparison_Ok (pm cm : gmap string Qc) :
  build_comparison pm cm =
    Ok (row_of pm cm <$> categories_of pm cm,
        (λ cat, mkSlice cat (Num.round2 (default 0 (pm !! cat)))) <$> categories_of pm cm,
        (λ cat, mkSlice cat (Num.round2 (default 0 (cm !! cat)))) <$> categories_of pm cm).
Proof.
  unfold build_comparison.
  rewrite (mapM_total _ _ _ (comparison_body_Ok pm cm)). simpl.
  by rewrite <- !list_fmap_compose.
Qed.

(** ** The category sequence *)

Lemma elem_of_keys (m : gmap string Qc) (cat : string) :
  cat ∈ keys m ↔ is_Some (m !! cat).
Proof.
  unfold keys. rewrite list_elem_of_fmap. split.
  - intros ([k v] & -> & Hkv). apply elem_of_map_to_list in Hkv. by exists v.
  - intros [v Hv]. exists (cat, v). split; [done|]. by apply elem_of_map_to_list.
Qed.

Lemma categories_of_Permutation (pm cm : gmap string Qc) :
  categories_of pm cm ≡ₚ
    elements (list_to_set (keys pm ++ keys cm) : gset string).
Proof. apply merge_sort_Permutation. Qed.

Lemma elem_of_categories_of (pm cm : gmap string Qc) (cat : string) :
  cat ∈ categories_of pm cm ↔ is_Some (pm !! cat) ∨ is_Some (cm !! cat).
Proof.
  rewrite categories_of_Permutation, elem_of_elements, elem_of_list_to_set,
    elem_of_app, !elem_of_keys. done.
Qed.

Lemma categories_of_NoDup (pm cm : gmap string Qc) : NoDup (categories_of pm cm).
Proof. rewrite categories_of_Permutation. apply NoDup_elements. Qed.

Lemma categories_of_sorted (pm cm : gmap string Qc) :
  StronglySorted String.le (categories_of pm cm).
Proof. apply (StronglySorted_merge_sort _). Qed.

Lemma row_category_row_of (pm cm : gmap string Qc) (cats : list string) :
  row_category <$> (row_of pm cm <$> cats) = cats.
Proof.
  induction cats as [|c cats IH]; [done|].
  rewrite !fmap_cons. by f_equal.
Qed.

(** C7: the categories of the comparison rows are the categories of either
    totals map, each exactly once, in ascending lexicographic order. *)
Theorem comparison_categories_sorted_union (pm cm : gmap string Qc) :
  ∃ comparison primary_slices compare_slices,
    build_comparison pm cm = Ok (comparison, primary_slices, compare_slices) ∧
    (∀ cat, cat ∈ row_category <$> comparison ↔
            is_Some (pm !! cat) ∨ is_Some (cm !! cat)) ∧
    NoDup (row_category <$> comparison) ∧
    StronglySorted String.le (row_category <$> comparison) ∧
    StronglySorted (λ s1 s2, String.ltb s1 s2 = true) (row_category <$> comparison).
Proof.
  eexists _, _, _. split; [apply build_comparison_Ok|].
  rewrite row_category_row_of.
  split; [apply elem_of_categories_of|].
  split; [apply categories_of_NoDup|].
  split; [apply categories_of_sorted|].
  pose proof (categories_of_NoDup pm cm) as Hnd.
  pose proof (categories_of_sorted pm cm) as Hs.
  induction Hs as [|s l Hl IH Hall]; [constructor|].
  apply NoDup_cons in Hnd as [Hs Hnd].
  constructor; [by apply IH|].
  apply Forall_forall. intros s' Hs'.
  rewrite Forall_forall in Hall. specialize (Hall s' Hs').
  unfold String.le, String.leb in Hall. unfold String.ltb.
  destruct (String.compare s s') eqn:Hcmp; [|done|done].
  apply String.compare_eq_iff in Hcmp. by subst.
Qed.

(** ** The aggregator *)

Lemma sum_values_comm (j1 j2 : string) (z1 z2 y : Qc) :
  y + z2 + z1 = y + z1 + z2.
Proof. ring. Qed.

Lemma sum_values_insert_fresh (m : gmap string Qc) (k : string) (v : Qc) :
  m !! k = None → sum_values (<[k := v]> m) = sum_values m + v.
Proof.
  intros Hk. unfold sum_values.
  rewrite map_fold_insert_L; [done| |done].
  intros. apply sum_values_comm; done.
Qed.

Lemma sum_values_delete (m : gmap string Qc) (k : string) (v : Qc) :
  m !! k = Some v → sum_values m = sum_values (delete k m) + v.
Proof.
  intros Hk. unfold sum_values.
  rewrite (map_fold_delete_L _ _ k v m); [done| |done].
  intros. apply sum_values_comm; done.
Qed.

(** Adding [a] under a key, present or not, adds [a] to the sum. *)
Lemma sum_values_accumulate (m : gmap string Qc) (k : string) (a : Qc) :
  sum_values (<[k := default 0 (m !! k) + a]> m) = sum_values m + a.
Proof.
  destruct (m !! k) as [v|] eqn:Hk; simpl.
  - rewrite <- insert_delete_eq.
    rewrite sum_values_insert_fresh by apply lookup_delete_eq.
    rewrite (sum_values_delete m k v Hk). ring.
  - rewrite sum_values_insert_fresh by done. ring.
Qed.

Lemma totals_loop_invariant (l : list Expense) (totals : gmap string Qc) (total : Qc) :
  total = sum_values totals →
  snd (foldl totals_step (totals, total) l) =
    sum_values (fst (foldl totals_step (totals, total) l)) ∧
  snd (foldl totals_step (totals, total) l) = total + sum_amounts l.
Proof.
  revert totals total. induction l as [|e l IH]; intros totals total Hinv; simpl.
  - split; [done|]. ring.
  - destruct (IH (<[category e := default 0 (totals !! category e) + amount e]> totals)
                 (total + amount e)) as [H1 H2].
    + rewrite sum_values_accumulate. by rewrite Hinv.
    + split; [done|]. rewrite H2. ring.
Qed.

(** ** The pie-slice builder *)

Section pie_properties.

Variables (radians cos sin : Qc → Qc) (fmt2 : Qc → string).
Variables (total cx cy r : Qc) (colors : list string).

Lemma palette_at_Ok (i : nat) :
  colors ≠ [] →
  palette_at colors i = Ok (default "" (colors !! (i mod length colors)%nat)).
Proof.
  intros Hne. unfold palette_at.
  destruct (decide (length colors = 0%nat)) as [Hl|Hl].
  - by destruct colors.
  - destruct (lookup_lt_is_Some_2 colors (i mod length colors)%nat) as [c Hc].
    + by apply Nat.mod_upper_bound.
    + by rewrite Hc.
Qed.

Lemma pie_body_skip (st : Qc * list pie_path) (i : nat) (s : slice) :
  sl_value s ≤ 0 →
  pie_body radians cos sin fmt2 total cx cy r colors st i s = Ok st.
Proof.
  intros Hv. unfold pie_body. destruct st as [start paths].
  by destruct (decide (sl_value s ≤ 0)).
Qed.

Lemma pie_body_emit (st : Qc * list pie_path) (i : nat) (s : slice) :
  total ≠ 0 → colors ≠ [] → ¬ sl_value s ≤ 0 →
  pie_body radians cos sin fmt2 total cx cy r colors st i s =
    Ok (st.1 + span total s,
        st.2 ++ [emit radians cos sin fmt2 total cx cy r colors st.1 i s]).
Proof.
  intros Ht Hc Hv. unfold pie_body. destruct st as [start paths].
  destruct (decide (sl_value s ≤ 0)) as [|_]; [done|].
  rewrite div_nonzero by done. simpl.
  rewrite palette_at_Ok by done. simpl.
  done.
Qed.

Lemma pie_loop_spec (slices : list slice) (st : Qc * list pie_path) (i : nat) :
  total ≠ 0 → colors ≠ [] →
  pie_loop radians cos sin fmt2 total cx cy r colors st i slices =
    Ok (end_angle total st.1 slices,
        st.2 ++ (emit3 radians cos sin fmt2 total cx cy r colors
                   <$> emitted total st.1 i slices)).
Proof.
  intros Ht Hc. revert st i.
  induction slices as [|s rest IH]; intros st i; simpl.
  - rewrite app_nil_r. by destruct st.
  - destruct (decide (sl_value s ≤ 0)) as [Hv|Hv].
    + rewrite pie_body_skip by done. simpl. apply IH.
    + rewrite pie_body_emit by done. simpl. rewrite IH. simpl.
      by rewrite <- app_assoc.
Qed.

Lemma pie_loop_app (l1 l2 : list slice) (st : Qc * list pie_path) (i : nat) :
  pie_loop radians cos sin fmt2 total cx cy r colors st i (l1 ++ l2) =
    st' ← pie_loop radians cos sin fmt2 total cx cy r colors st i l1;
    pie_loop radians cos sin fmt2 total cx cy r colors st' (i + length l1) l2.
Proof.
  revert st i. induction l1 as [|s l1 IH]; intros st i; simpl.
  - by rewrite Nat.add_0_r.
  - destruct (pie_body _ _ _ _ _ _ _ _ _ st i s) as [st'|e]; simpl; [|done].
    rewrite IH. by rewrite Nat.add_succ_r.
Qed.

End pie_properties.

Lemma effective_colors_nonempty (colors : option (list string)) :
  effective_colors colors ≠ [].
Proof. by destruct colors as [[|c cs]|]. Qed.

Lemma Qc_not_le_lt (x : Qc) : ¬ x ≤ 0 ↔ 0 < x.
Proof. split; [apply Qcnot_le_lt | apply Qclt_not_le]. Qed.

Lemma Qc_pos_neq_0 (x : Qc) : 0 < x → x ≠ 0.
Proof. intros Hx ->. by apply (Qclt_not_eq 0 0). Qed.

Section pie_theorems.

Variables (radians cos sin : Qc → Qc) (fmt2 : Qc → string).

(** The whole builder in one equation. *)
Lemma make_pie_paths_spec (slices : list slice) (total cx cy r : Qc)
    (colors : option (list string)) :
  make_pie_paths radians cos sin fmt2 slices total cx cy r colors =
    Ok (if decide (total ≤ 0) then []
        else emit3 radians cos sin fmt2 total cx cy r (effective_colors colors)
               <$> emitted total 0 0 slices).
Proof.
  unfold make_pie_paths.
  destruct (decide (total ≤ 0)) as [|Ht]; [done|].
  rewrite pie_loop_spec.
  - done.
  - apply Qc_pos_neq_0. by apply Qc_not_le_lt.
  - apply effective_colors_nonempty.
Qed.

Lemma emitted_slices (total start : Qc) (i : nat) (slices : list slice) :
  (emitted total start i slices).*2 = filter (λ s, 0 < sl_value s) slices.
Proof.
  revert start i. induction slices as [|s rest IH]; intros start i; simpl; [done|].
  rewrite filter_cons.
  destruct (decide (sl_value s ≤ 0)) as [Hv|Hv].
  - rewrite decide_False by (by apply Qcle_not_lt). apply IH.
  - rewrite decide_True by (by apply Qc_not_le_lt). simpl. by rewrite IH.
Qed.

Lemma emitted_positions (total start : Qc) (i : nat) (slices : list slice) :
  (λ x : nat * Qc * slice, (x.1.1, x.2)) <$> emitted total start i slices =
    filter (λ x : nat * slice, 0 < sl_value x.2) (imap (λ j s, ((i + j)%nat, s)) slices).
Proof.
  revert start i. induction slices as [|s rest IH]; intros start i; simpl; [done|].
  rewrite filter_cons. simpl.
  rewrite (imap_ext _ (λ j s, ((S i + j)%nat, s)) rest)
    by (intros; simpl; f_equal; lia).
  destruct (decide (sl_value s ≤ 0)) as [Hv|Hv].
  - rewrite decide_False by (by apply Qcle_not_lt). apply IH.
  - rewrite decide_True by (by apply Qc_not_le_lt). simpl.
    rewrite IH. by rewrite Nat.add_0_r.
Qed.

Lemma sum_list_cons (x : Qc) (l : list Qc) : sum_list (x :: l) = x + sum_list l.
Proof. done. Qed.

Lemma end_angle_sum (total start : Qc) (slices : list slice) :
  end_angle total start slices =
    start + sum_list (span total <$> filter (λ s, 0 < sl_value s) slices).
Proof.
  revert start. induction slices as [|s rest IH]; intros start.
  - simpl. unfold sum_list. simpl. ring.
  - rewrite filter_cons. simpl end_angle.
    destruct (decide (sl_value s ≤ 0)) as [Hv|Hv].
    + rewrite decide_False by (by apply Qcle_not_lt). apply IH.
    + rewrite decide_True by (by apply Qc_not_le_lt).
      rewrite fmap_cons, sum_list_cons, IH. ring.
Qed.

(** The spans of the positive slices of a list without negative values add
    up to the share of the whole list. *)
Lemma sum_spans (total : Qc) (slices : list slice) :
  Forall (λ s, 0 ≤ sl_value s) slices →
  sum_list (span total <$> filter (λ s, 0 < sl_value s) slices) =
    sum_list (sl_value <$> slices) / total * Num.of_Z 360.
Proof.
  induction 1 as [|s rest Hs _ IH].
  - unfold sum_list, Qcdiv. simpl. ring.
  - rewrite filter_cons, fmap_cons, sum_list_cons.
    destruct (decide (0 < sl_value s)) as [Hv|Hv].
    + rewrite fmap_cons, sum_list_cons, IH. unfold span, Qcdiv. ring.
    + assert (sl_value s = 0) as ->.
      { apply Qcle_antisym; [by apply Qcnot_lt_le | done]. }
      rewrite IH. unfold Qcdiv. ring.
Qed.

Lemma emitted_lookup (total start : Qc) (i n : nat) (slices : list slice)
    (x : nat * Qc * slice) :
  emitted total start i slices !! n = Some x →
  filter (λ s, 0 < sl_value s) slices !! n = Some x.2 ∧
  x.1.2 = start + sum_list (take n (span total <$> filter (λ s, 0 < sl_value s) slices)).
Proof.
  revert start i n. induction slices as [|s rest IH]; intros start i n; [done|].
  rewrite filter_cons. simpl emitted.
  destruct (decide (sl_value s ≤ 0)) as [Hv|Hv].
  - rewrite decide_False by (by apply Qcle_not_lt). apply IH.
  - rewrite decide_True by (by apply Qc_not_le_lt).
    destruct n as [|n].
    + intros [= <-]. split; [done|]. simpl. unfold sum_list. simpl. ring.
    + intros Hx. destruct (IH _ _ _ Hx) as [H1 H2]. split; [done|].
      rewrite fmap_cons, firstn_cons, sum_list_cons, H2. ring.
Qed.

Lemma emitted_app (total start : Qc) (i : nat) (l1 l2 : list slice) :
  emitted total start i (l1 ++ l2) =
    emitted total start i l1 ++
    emitted total (end_angle total start l1) (i + length l1) l2.
Proof.
  revert start i. induction l1 as [|s l1 IH]; intros start i; simpl.
  - by rewrite Nat.add_0_r.
  - rewrite Nat.add_succ_r.
    destruct (decide (sl_value s ≤ 0)); simpl; by rewrite IH.
Qed.

Lemma emitted_length (total start : Qc) (i : nat) (slices : list slice) :
  length (emitted total start i slices) =
    length (filter (λ s, 0 < sl_value s) slices).
Proof. by rewrite <- (emitted_slices total start i), length_fmap. Qed.

Lemma string_app_assoc (s1 s2 s3 : string) :
  (s1 +:+ s2) +:+ s3 = s1 +:+ (s2 +:+ s3).
Proof.
  induction s1 as [|a s1 IH]; [done|].
  change (String a ((s1 +:+ s2) +:+ s3) = String a (s1 +:+ (s2 +:+ s3))).
  by f_equal.
Qed.

(** The f-string spells out the four drawing commands. *)
Lemma path_d_render (cx cy r x1 y1 x2 y2 : Qc) (large : bool) :
  path_d fmt2 cx cy r x1 y1 x2 y2 (if large then 1 else 0)%Z =
    render_path fmt2
      [MoveTo cx cy; LineTo x1 y1; ArcTo r r 0 large true x2 y2; ClosePath].
Proof.
  assert (pretty 0%Z = "0") as H0 by (by vm_compute).
  assert (pretty 1%Z = "1") as H1 by (by vm_compute).
  unfold path_d, render_path, render_cmd, flag.
  rewrite !fmap_cons, fmap_nil. unfold String.concat.
  rewrite H0. destruct large; rewrite ?H0, ?H1;
    rewrite !string_app_assoc; reflexivity.
Qed.

End pie_theorems.

Section pie_claims.

Variables (radians cos sin : Qc → Qc) (fmt2 : Qc → string).


(** C2: for slices without negative values whose values add up to
    [total > 0], the emitted slices keep the input order; after any prefix
    of the input the running start angle, which begins at 0, is the sum of
    the spans [value / total * 360] of the slices emitted so far, these
    being a prefix of the final output; and all spans add up to 360. *)
Theorem pie_angles_partition (slices : list slice) (total cx cy r : Qc)
    (colors : option (list string)) :
  Forall (λ s, 0 ≤ sl_value s) slices →
  sum_list (sl_value <$> slices) = total →
  0 < total →
  ∃ paths,
    make_pie_paths radians cos sin fmt2 slices total cx cy r colors = Ok paths ∧
    p_label <$> paths = sl_category <$> filter (λ s, 0 < sl_value s) slices ∧
    (∀ k, ∃ st,
       pie_loop radians cos sin fmt2 total cx cy r (effective_colors colors)
         (0, []) 0 (take k slices) = Ok st ∧
       st.1 = sum_list (span total <$> filter (λ s, 0 < sl_value s) (take k slices)) ∧
       st.2 = take (length (filter (λ s, 0 < sl_value s) (take k slices))) paths) ∧
    sum_list (span total <$> filter (λ s, 0 < sl_value s) slices) = Num.of_Z 360.
Proof.
  intros Hnn Hsum Ht.
  assert (total ≠ 0) as Ht0 by (by apply Qc_pos_neq_0).
  eexists. split; [apply make_pie_paths_spec|].
  rewrite decide_False by (by apply Qclt_not_le).
  split; [|split].
  - rewrite <- (emitted_slices total 0 0 slices).
    rewrite <- !list_fmap_compose. by apply list_fmap_ext.
  - intros k. eexists. split.
    { apply pie_loop_spec; [done|apply effective_colors_nonempty]. }
    simpl. split.
    + rewrite end_angle_sum. ring.
    + rewrite <- (take_drop k slices) at 3.
      rewrite emitted_app, fmap_app.
      rewrite <- (emitted_length total 0 0 (take k slices)).
      rewrite <- (length_fmap (emit3 radians cos sin fmt2 total cx cy r
                                (effective_colors colors))).
      by rewrite take_app_length.
  - rewrite sum_spans by done. rewrite Hsum. field. done.
Qed.

(** C4 (as amended): a skipped slice still takes its palette slot: every
    emitted slice has the palette color at its position in the input list
    (skipped slices counted) modulo the palette length, 6 for the default
    palette. *)
Theorem pie_color_by_input_position (slices : list slice) (total cx cy r : Qc)
    (colors : option (list string)) :
  0 < total →
  ∃ paths,
    make_pie_paths radians cos sin fmt2 slices total cx cy r colors = Ok paths ∧
    Forall2 (λ p (x : nat * slice),
               p_label p = sl_category x.2 ∧
               effective_colors colors !! (x.1 mod length (effective_colors colors))%nat
                 = Some (p_color p))
            paths (filter (λ x : nat * slice, 0 < sl_value x.2) (enumerate slices)) ∧
    length (effective_colors None) = 6%nat.
Proof.
  intros Ht.
  eexists. split; [apply make_pie_paths_spec|].
  rewrite decide_False by (by apply Qclt_not_le).
  split; [|done].
  unfold enumerate.
  change (imap pair slices) with (imap (λ j s, ((0 + j)%nat, s)) slices).
  rewrite <- (emitted_positions total 0 0 slices).
  apply Forall2_fmap, Forall_Forall2_diag, Forall_forall.
  intros [[i start] s] _. simpl. split; [done|].
  destruct (lookup_lt_is_Some_2 (effective_colors colors)
              (i mod length (effective_colors colors))%nat) as [c Hc].
  - apply Nat.mod_upper_bound.
    pose proof (effective_colors_nonempty colors).
    by destruct (effective_colors colors).
  - by rewrite Hc.
Qed.

(** C8: the path description of the n-th emitted slice is: move to the
    center, line to the arc start point, arc to the arc end point, close;
    the large-arc flag is 1 exactly when the span of the slice exceeds 180
    degrees, the sweep flag is 1.  The arc starts at the sum of the spans
    of the slices emitted before. *)
Theorem pie_path_description (slices : list slice) (total cx cy r : Qc)
    (colors : option (list string)) :
  0 < total →
  ∃ paths,
    make_pie_paths radians cos sin fmt2 slices total cx cy r colors = Ok paths ∧
    length paths = length (filter (λ s, 0 < sl_value s) slices) ∧
    ∀ n p, paths !! n = Some p →
      ∃ s, filter (λ s, 0 < sl_value s) slices !! n = Some s ∧
        let start :=
          sum_list (take n (span total <$> filter (λ s, 0 < sl_value s) slices)) in
        let stop := start + span total s in
        p_d p = render_path fmt2
                  [MoveTo cx cy;
                   LineTo (arc_x radians cos cx r start) (arc_y radians sin cy r start);
                   ArcTo r r 0 (bool_decide (Num.of_Z 180 < span total s)) true
                     (arc_x radians cos cx r stop) (arc_y radians sin cy r stop);
                   ClosePath].
Proof.
  intros Ht.
  eexists. split; [apply make_pie_paths_spec|].
  rewrite decide_False by (by apply Qclt_not_le).
  split; [by rewrite length_fmap, emitted_length|].
  intros n p Hp.
  apply list_lookup_fmap_Some in Hp as ([[i start] s] & -> & Hx).
  apply emitted_lookup in Hx as [Hs Hstart]. simpl in Hs, Hstart.
  exists s. split; [done|]. simpl.
  rewrite <- path_d_render.
  replace (sum_list (take n (span total <$> filter (λ s0, 0 < sl_value s0) slices)))
    with start by (rewrite Hstart; ring).
  unfold emit3, emit. simpl.
  destruct (decide (Num.of_Z 180 < span total s)) as [Hl|Hl].
  - by rewrite bool_decide_eq_true_2.
  - by rewrite bool_decide_eq_false_2.
Qed.

End pie_claims.

(** ** The builder on the example slices *)

Ltac Qc_decide := apply (bool_decide_unpack _); vm_compute; exact I.

Lemma pie_angles_partition_witness :
  ∃ paths,
    make_pie_paths example_trig example_trig example_trig example_fmt2
      example_slices (Num.of_Z 150) (Num.of_Z 120) (Num.of_Z 120) (Num.of_Z 100) None
      = Ok paths ∧
    p_label <$> paths = ["Food"; "Bills"] ∧
    sum_list (span (Num.of_Z 150) <$> filter (λ s, 0 < sl_value s) example_slices)
      = Num.of_Z 360.
Proof.
  destruct (pie_angles_partition example_trig example_trig example_trig example_fmt2
              example_slices (Num.of_Z 150) (Num.of_Z 120) (Num.of_Z 120)
              (Num.of_Z 100) None) as (paths & H1 & H2 & _ & H4).
  - repeat constructor; Qc_decide.
  - Qc_decide.
  - Qc_decide.
  - exists paths. split; [exact H1|]. split; [|exact H4].
    rewrite H2. reflexivity.
Defined.

Lemma pie_color_by_input_position_witness :
  ∃ paths,
    make_pie_paths example_trig example_trig example_trig example_fmt2
      example_slices (Num.of_Z 150) (Num.of_Z 120) (Num.of_Z 120) (Num.of_Z 100) None
      = Ok paths ∧
    Forall2 (λ p (x : nat * slice),
               p_label p = sl_category x.2 ∧
               effective_colors None !! (x.1 mod length (effective_colors None))%nat
                 = Some (p_color p))
            paths (filter (λ x : nat * slice, 0 < sl_value x.2) (enumerate example_slices)) ∧
    length (effective_colors None) = 6%nat.
Proof.
  apply (pie_color_by_input_position example_trig example_trig example_trig
           example_fmt2 example_slices (Num.of_Z 150) (Num.of_Z 120) (Num.of_Z 120)
           (Num.of_Z 100) None).
  Qc_decide.
Defined.

(** C4 (as stated) fails: Bills is the second emitted slice (n = 1), yet its
    color is the palette entry 2, the entry of its input position, because
    the skipped slice Travel took entry 1. *)
Lemma pie_color_skipped_slot_counterexample :
  ∃ paths p,
    make_pie_paths example_trig example_trig example_trig example_fmt2
      example_slices (Num.of_Z 150) (Num.of_Z 120) (Num.of_Z 120) (Num.of_Z 100) None
      = Ok paths ∧
    paths !! 1%nat = Some p ∧
    p_label p = "Bills" ∧
    default_colors !! (1 mod length default_colors)%nat = Some "#FF6B78" ∧
    default_colors !! (2 mod length default_colors)%nat = Some (p_color p) ∧
    p_color p ≠ "#FF6B78".
Proof.
  eexists _, _. split; [vm_compute; reflexivity|].
  repeat split; discriminate.
Qed.

Lemma pie_path_description_witness :
  ∃ paths,
    make_pie_paths example_trig example_trig example_trig example_fmt2
      example_slices (Num.of_Z 150) (Num.of_Z 120) (Num.of_Z 120) (Num.of_Z 100) None
      = Ok paths ∧
    length paths = 2%nat ∧
    p_d <$> paths = ["M 120,120 L -8880,-8880 A 100,100 0 1,1 15120,15120 Z";
                     "M 120,120 L 15120,15120 A 100,100 0 0,1 27120,27120 Z"].
Proof.
  destruct (pie_path_description example_trig example_trig example_trig example_fmt2
              example_slices (Num.of_Z 150) (Num.of_Z 120) (Num.of_Z 120)
              (Num.of_Z 100) None) as (paths & H1 & H2 & _).
  - Qc_decide.
  - exists paths. split; [exact H1|]. split; [exact H2|].
    rewrite make_pie_paths_spec in H1. injection H1 as <-.
    vm_compute. reflexivity.
Defined.

(** ** Bar scaling *)

Lemma max_ge_l (a b : Qc) : a ≤ Num.max a b.
Proof.
  unfold Num.max. destruct (decide (a < b)); [by apply Qclt_le_weak|done].
Qed.

Lemma max3_ge_first (a b c : Qc) : a ≤ Num.max3 a b c.
Proof.
  unfold Num.max3. trans (Num.max a b); apply max_ge_l.
Qed.

Lemma max3_ge_third (a b c : Qc) : c ≤ Num.max3 a b c.
Proof.
  unfold Num.max3, Num.max at 1.
  destruct (decide (Num.max a b < c)); [done|by apply Qcnot_lt_le].
Qed.

Lemma max_bar_value_foldl_ge (comparison : list comparison_row) (acc : Qc) :
  acc ≤ foldl (λ acc r, Num.max3 acc (row_primary r) (row_compare r)) acc comparison.
Proof.
  revert acc. induction comparison as [|row rest IH]; intros acc; simpl; [done|].
  etrans; [apply (max3_ge_first acc (row_primary row) (row_compare row))|apply IH].
Qed.

Lemma max_bar_value_loop_nonneg (comparison : list comparison_row) :
  0 ≤ max_bar_value_loop comparison.
Proof. apply max_bar_value_foldl_ge. Qed.

Lemma max_bar_value_pos (comparison : list comparison_row) (pt ct : Qc) :
  0 < max_bar_value_of comparison pt ct.
Proof.
  unfold max_bar_value_of.
  destruct (decide (max_bar_value_loop comparison = 0)) as [H0|H0].
  - apply Qclt_le_trans with 1; [done|apply max3_ge_third].
  - destruct (Qcle_lt_or_eq _ _ (max_bar_value_loop_nonneg comparison)); [done|].
    by destruct H0.
Qed.

Lemma bar_width_Ok (v m : Qc) :
  m ≠ 0 → bar_width v m = Ok (v / m * Num.of_Z bar_max_width).
Proof.
  intros Hm. unfold bar_width. rewrite decide_True by done.
  by rewrite div_nonzero.
Qed.

Lemma bar_widths_Ok (comparison : list comparison_row) (m : Qc) :
  m ≠ 0 →
  bar_widths comparison m =
    Ok ((λ row, (row_primary row / m * Num.of_Z bar_max_width,
                 row_compare row / m * Num.of_Z bar_max_width)) <$> comparison).
Proof.
  intros Hm. unfold bar_widths. apply mapM_total.
  intros row. by rewrite !bar_width_Ok.
Qed.

Lemma max_bar_value_loop_zero (comparison : list comparison_row) :
  Forall (λ row, row_primary row = 0 ∧ row_compare row = 0) comparison →
  max_bar_value_loop comparison = 0.
Proof.
  unfold max_bar_value_loop. induction 1 as [|row rest [Hp Hc] _ IH]; simpl; [done|].
  rewrite Hp, Hc. exact IH.
Qed.

Lemma zero_rows_zero_widths (comparison : list comparison_row) (m : Qc) :
  Forall (λ row, row_primary row = 0 ∧ row_compare row = 0) comparison →
  (λ row, (row_primary row / m * Num.of_Z bar_max_width,
           row_compare row / m * Num.of_Z bar_max_width)) <$> comparison =
  (λ _, (0, 0)) <$> comparison.
Proof.
  induction 1 as [|row rest [Hp Hc] _ IH]; [done|].
  rewrite !fmap_cons. f_equal; [|exact IH].
  rewrite Hp, Hc. f_equal; unfold Qcdiv; ring.
Qed.

(** C6: the scaling denominator is positive, so never zero, and every bar
    width is computed without a division by zero; when the largest
    category value is 0 the denominator is max(primary total, compare
    total, 1); when all category values and both totals are zero the
    denominator is 1 and every bar has width 0. *)
Theorem bar_scaling_no_division_by_zero (comparison : list comparison_row)
    (primary_total compare_total : Qc) :
  let max_bar_value := max_bar_value_of comparison primary_total compare_total in
  max_bar_value ≠ 0 ∧
  (∃ widths,
     bar_widths comparison max_bar_value = Ok widths ∧
     widths = (λ row, (row_primary row / max_bar_value * Num.of_Z bar_max_width,
                       row_compare row / max_bar_value * Num.of_Z bar_max_width))
                <$> comparison) ∧
  (max_bar_value_loop comparison = 0 →
     max_bar_value = Num.max3 primary_total compare_total 1) ∧
  (Forall (λ row, row_primary row = 0 ∧ row_compare row = 0) comparison →
   primary_total = 0 → compare_total = 0 →
     max_bar_value = 1 ∧
     bar_widths comparison max_bar_value = Ok ((λ _, (0, 0)) <$> comparison)).
Proof.
  intros m.
  assert (m ≠ 0) as Hm.
  { apply Qc_pos_neq_0, max_bar_value_pos. }
  split; [done|]. split; [|split].
  - eexists. split; [by apply bar_widths_Ok|done].
  - intros H0. unfold m, max_bar_value_of. by rewrite decide_True.
  - intros Hall -> ->.
    assert (m = 1) as Hm1.
    { unfold m, max_bar_value_of.
      rewrite decide_True by (by apply max_bar_value_loop_zero).
      by apply Qc_is_canon. }
    split; [done|].
    rewrite bar_widths_Ok by done.
    f_equal. by apply zero_rows_zero_widths.
Qed.

(** ** The default comparison period *)

Local Open Scope Z_scope.

(** The calendar repeats every 400 years, 146097 days. *)
Lemma days_before_year_shift (y q : Z) :
  PyDate.days_before_year (y + 400 * q) = PyDate.days_before_year y + 146097 * q.
Proof. unfold PyDate.days_before_year. Z.div_mod_to_equations. lia. Qed.

Lemma is_leap_shift (y q : Z) : PyDate.is_leap (y + 400 * q) = PyDate.is_leap y.
Proof.
  unfold PyDate.is_leap.
  replace ((y + 400 * q) mod 4) with (y mod 4)
    by (Z.div_mod_to_equations; lia).
  replace ((y + 400 * q) mod 100) with (y mod 100)
    by (Z.div_mod_to_equations; lia).
  replace ((y + 400 * q) mod 400) with (y mod 400)
    by (Z.div_mod_to_equations; lia).
  done.
Qed.

Lemma days_before_month_shift (y q m : Z) :
  PyDate.days_before_month (y + 400 * q) m = PyDate.days_before_month y m.
Proof. unfold PyDate.days_before_month. by rewrite is_leap_shift. Qed.

Lemma days_in_month_shift (y q m : Z) :
  PyDate.days_in_month (y + 400 * q) m = PyDate.days_in_month y m.
Proof. unfold PyDate.days_in_month. by rewrite is_leap_shift. Qed.

Lemma ord2ymd_shift (o q : Z) :
  1 ≤ o ≤ 146097 →
  PyDate.ord2ymd (o + 146097 * q) =
    Date (d_year (PyDate.ord2ymd o) + 400 * q)
         (d_month (PyDate.ord2ymd o)) (d_day (PyDate.ord2ymd o)).
Proof.
  intros Ho.
  assert ((o + 146097 * q - 1) / 146097 = q) as H1
    by (Z.div_mod_to_equations; lia).
  assert ((o + 146097 * q - 1) mod 146097 = o - 1) as H2
    by (Z.div_mod_to_equations; lia).
  assert ((o - 1) / 146097 = 0) as H3 by (Z.div_mod_to_equations; lia).
  assert ((o - 1) mod 146097 = o - 1) as H4 by (Z.div_mod_to_equations; lia).
  unfold PyDate.ord2ymd, PyDate.DI400Y. cbv zeta.
  rewrite H1, H2, H3, H4.
  repeat match goal with
         | |- context [if ?b then _ else _] => destruct b
         end; simpl; f_equal; lia.
Qed.

Lemma check_cycle : forallb check_cycle_year (seqZ 1 400) = true.
Proof. vm_compute. reflexivity. Qed.

Lemma cycle_month (y m : Z) :
  1 ≤ y ≤ 400 → 2 ≤ m ≤ 12 →
  let o := PyDate.days_before_year y + PyDate.days_before_month y m in
  1 ≤ o ≤ 146097 ∧ d_year (PyDate.ord2ymd o) = y ∧ d_month (PyDate.ord2ymd o) = m - 1.
Proof.
  intros Hy Hm o.
  pose proof check_cycle as Hall. rewrite forallb_forall in Hall.
  assert (check_cycle_year y = true) as Hyear.
  { apply Hall, list_elem_of_In, elem_of_seqZ. lia. }
  apply andb_true_iff in Hyear as [Hmonths _].
  rewrite forallb_forall in Hmonths.
  assert (check_cycle_month y m = true) as Hc.
  { apply Hmonths, list_elem_of_In, elem_of_seqZ. lia. }
  unfold check_cycle_month in Hc. fold o in Hc.
  repeat (apply andb_true_iff in Hc as [Hc ?]). lia.
Qed.

Lemma cycle_january (y : Z) :
  1 ≤ y ≤ 400 →
  let o := PyDate.days_before_year (y + 1) in
  1 ≤ o ≤ 146097 ∧ d_year (PyDate.ord2ymd o) = y ∧ d_month (PyDate.ord2ymd o) = 12.
Proof.
  intros Hy o.
  pose proof check_cycle as Hall. rewrite forallb_forall in Hall.
  assert (check_cycle_year y = true) as Hyear.
  { apply Hall, list_elem_of_In, elem_of_seqZ. lia. }
  apply andb_true_iff in Hyear as [_ Hc].
  unfold check_cycle_january in Hc. fold o in Hc.
  repeat (apply andb_true_iff in Hc as [Hc ?]). lia.
Qed.

(** The day before the first of a month, for every year from 1 on. *)
Lemma day_before_first_of_month (y m : Z) :
  1 ≤ y → 2 ≤ m ≤ 12 →
  let d := PyDate.ord2ymd (PyDate.days_before_year y + PyDate.days_before_month y m) in
  d_year d = y ∧ d_month d = m - 1.
Proof.
  intros Hy Hm.
  assert (∃ q y', y = y' + 400 * q ∧ 1 ≤ y' ≤ 400) as (q & y' & -> & Hy').
  { exists ((y - 1) / 400), ((y - 1) mod 400 + 1). Z.div_mod_to_equations. lia. }
  rewrite days_before_year_shift, days_before_month_shift.
  destruct (cycle_month y' m Hy' Hm) as (Ho & Hyear & Hmonth).
  replace (PyDate.days_before_year y' + 146097 * q + PyDate.days_before_month y' m)
    with (PyDate.days_before_year y' + PyDate.days_before_month y' m + 146097 * q)
    by lia.
  rewrite ord2ymd_shift by done. simpl. lia.
Qed.

Lemma day_before_first_of_january (y : Z) :
  2 ≤ y →
  let d := PyDate.ord2ymd (PyDate.days_before_year y) in
  d_year d = y - 1 ∧ d_month d = 12.
Proof.
  intros Hy.
  assert (∃ q y', y = y' + 1 + 400 * q ∧ 1 ≤ y' ≤ 400) as (q & y' & -> & Hy').
  { exists ((y - 2) / 400), ((y - 2) mod 400 + 1). Z.div_mod_to_equations. lia. }
  rewrite days_before_year_shift.
  destruct (cycle_january y' Hy') as (Ho & Hyear & Hmonth).
  rewrite ord2ymd_shift by done. simpl. lia.
Qed.

Lemma month_table_bounds (y m : Z) :
  1 ≤ m ≤ 12 →
  0 ≤ PyDate.days_before_month y m ≤ 335 ∧
  (2 ≤ m → 31 ≤ PyDate.days_before_month y m) ∧
  (m = 1 → PyDate.days_before_month y m = 0) ∧
  1 ≤ PyDate.days_in_month y m.
Proof.
  intros Hm.
  assert (m = 1 ∨ m = 2 ∨ m = 3 ∨ m = 4 ∨ m = 5 ∨ m = 6 ∨ m = 7 ∨ m = 8 ∨
          m = 9 ∨ m = 10 ∨ m = 11 ∨ m = 12) as Hcases by lia.
  unfold PyDate.days_before_month, PyDate.days_in_month.
  repeat (destruct Hcases as [->|Hcases]); [..|subst m];
    destruct (PyDate.is_leap y); cbv -[Z.le Z.lt]; lia.
Qed.

Lemma days_before_year_bounds (y : Z) :
  1 ≤ y ≤ 9999 →
  0 ≤ PyDate.days_before_year y ≤ 3651694 ∧
  (2 ≤ y → 365 ≤ PyDate.days_before_year y).
Proof.
  intros Hy. unfold PyDate.days_before_year. Z.div_mod_to_equations. lia.
Qed.

Lemma make_first_of_month (year month : Z) :
  1 ≤ year ≤ 9999 → 1 ≤ month ≤ 12 →
  PyDate.make year month 1 = Ok (Date year month 1).
Proof.
  intros Hy Hm.
  destruct (month_table_bounds year month Hm) as (_ & _ & _ & Hdim).
  unfold PyDate.make, PyDate.MINYEAR, PyDate.MAXYEAR.
  assert (PyDate.fits_int year && PyDate.fits_int month && PyDate.fits_int 1 = true)
    as -> by (unfold PyDate.fits_int; lia).
  cbn [negb].
  rewrite (proj2 (Z.leb_le 1 year)), (proj2 (Z.leb_le year 9999)) by lia.
  rewrite (proj2 (Z.leb_le 1 month)), (proj2 (Z.leb_le month 12)) by lia.
  rewrite (proj2 (Z.leb_le 1 (PyDate.days_in_month year month))) by lia.
  done.
Qed.

Lemma sub_days_first_of_month (year month : Z) :
  1 ≤ year ≤ 9999 → 1 ≤ month ≤ 12 → ¬ (year = 1 ∧ month = 1) →
  PyDate.sub_days (Date year month 1) 1 =
    Ok (PyDate.ord2ymd (PyDate.days_before_year year
                        + PyDate.days_before_month year month)).
Proof.
  intros Hy Hm Hne.
  destruct (month_table_bounds year month Hm) as (Hdbm & Hdbm2 & Hdbm1 & _).
  destruct (days_before_year_bounds year Hy) as (Hdby & Hdby2).
  unfold PyDate.sub_days, PyDate.toordinal, PyDate.ymd2ord, PyDate.MAXORDINAL.
  cbn [d_year d_month d_day].
  replace (PyDate.days_before_year year + PyDate.days_before_month year month + 1 + - (1))
    with (PyDate.days_before_year year + PyDate.days_before_month year month) by lia.
  rewrite (proj2 (Z.ltb_lt 0 _)), (proj2 (Z.leb_le _ 3652059)); [done|lia|].
  destruct (decide (2 ≤ month)); [lia|].
  assert (month = 1) by lia. lia.
Qed.

Lemma resolve_compare_in_range (month year : Z) :
  1 ≤ year ≤ 9999 → 1 ≤ month ≤ 12 →
  resolve_compare month year None None = previous_month month year.
Proof.
  intros Hy Hm.
  unfold resolve_compare, previous_month.
  rewrite make_first_of_month, result_bind_Ok by done.
  assert (PyDate.fits_int year && PyDate.fits_int month = true)
    as -> by (unfold PyDate.fits_int; lia).
  cbn [negb].
  rewrite (proj2 (Z.leb_le 1 year)), (proj2 (Z.leb_le year 9999)) by lia.
  rewrite (proj2 (Z.leb_le 1 month)), (proj2 (Z.leb_le month 12)) by lia.
  cbn [negb andb].
  destruct (decide (year = 1 ∧ month = 1)) as [[-> ->]|Hne]; [reflexivity|].
  rewrite sub_days_first_of_month, result_bind_Ok by done.
  assert ((year =? 1) && (month =? 1) = false) as -> by lia.
  destruct (decide (2 ≤ month)) as [Hm2|Hm1].
  - rewrite (proj2 (Z.leb_le 2 month)) by lia.
    destruct (day_before_first_of_month year month) as [H1 H2]; [lia..|].
    by rewrite H1, H2.
  - assert (month = 1) as -> by lia.
    destruct (month_table_bounds year 1 Hm) as (_ & _ & Hz & _).
    rewrite Hz, Z.add_0_r by done.
    destruct (day_before_first_of_january year) as [H1 H2]; [lia|].
    by rewrite H1, H2.
Qed.

Local Open Scope Qc_scope.

Lemma resolve_compare_default (month year : Z) :
  resolve_compare month year None None = previous_month month year.
Proof.
  destruct (negb (PyDate.fits_int year && PyDate.fits_int month)) eqn:Ef.
  { unfold resolve_compare, previous_month, PyDate.make. rewrite Ef.
    apply negb_true_iff in Ef. by rewrite Ef. }
  assert (PyDate.fits_int year && PyDate.fits_int month && PyDate.fits_int 1 = true)
    as Ef1.
  { apply negb_false_iff in Ef. by rewrite Ef. }
  destruct (negb ((1 <=? year)%Z && (year <=? 9999)%Z)) eqn:Ey.
  { unfold resolve_compare, previous_month, PyDate.make, PyDate.MINYEAR,
      PyDate.MAXYEAR. by rewrite Ef, Ef1, Ey. }
  destruct (negb ((1 <=? month)%Z && (month <=? 12)%Z)) eqn:Em.
  { unfold resolve_compare, previous_month, PyDate.make, PyDate.MINYEAR,
      PyDate.MAXYEAR. by rewrite Ef, Ef1, Ey, Em. }
  apply negb_false_iff, andb_true_iff in Ey as [Hy1 Hy2].
  apply negb_false_iff, andb_true_iff in Em as [Hm1 Hm2].
  apply resolve_compare_in_range; lia.
Qed.

(** C10 (as amended): when [compare_month] or [compare_year] is absent, a
    primary month in 1..12 of a year in 1..9999, January of year 1
    excepted, gets the calendar month before it, [(month - 1, year)] for
    [month >= 2] and [(12, year - 1)] for January; for any other primary
    month or year no period is computed: the request fails, with
    [ValueError] or [OverflowError]. *)
Theorem default_compare_period (month year : Z) (compare_month compare_year : option Z) :
  compare_month = None ∨ compare_year = None →
  ((1 ≤ month ≤ 12)%Z → (1 ≤ year ≤ 9999)%Z → ¬ (month = 1%Z ∧ year = 1%Z) →
   resolve_compare month year compare_month compare_year =
     Ok (if (2 <=? month)%Z then ((month - 1)%Z, year) else (12%Z, (year - 1)%Z))) ∧
  (¬ ((1 ≤ month ≤ 12)%Z ∧ (1 ≤ year ≤ 9999)%Z ∧ ¬ (month = 1%Z ∧ year = 1%Z)) →
   ∃ e, resolve_compare month year compare_month compare_year = Raise e ∧
        (e = ValueError ∨ e = OverflowError)).
Proof.
  intros Hnone.
  assert (resolve_compare month year compare_month compare_year =
          previous_month month year) as ->.
  { rewrite <- resolve_compare_default.
    destruct Hnone as [-> | ->]; [done|]. by destruct compare_month. }
  unfold previous_month. split.
  - intros Hm Hy Hne.
    assert (PyDate.fits_int year && PyDate.fits_int month = true)
      as -> by (unfold PyDate.fits_int; lia).
    rewrite (proj2 (Z.leb_le 1 year)), (proj2 (Z.leb_le year 9999)) by lia.
    rewrite (proj2 (Z.leb_le 1 month)), (proj2 (Z.leb_le month 12)) by lia.
    cbn [negb andb].
    assert ((year =? 1)%Z && (month =? 1)%Z = false) as -> by lia.
    by destruct (2 <=? month)%Z.
  - intros Hout.
    destruct (negb (PyDate.fits_int year && PyDate.fits_int month)); [eauto|].
    destruct (negb ((1 <=? year)%Z && (year <=? 9999)%Z)) eqn:Ey; [eauto|].
    destruct (negb ((1 <=? month)%Z && (month <=? 12)%Z)) eqn:Em; [eauto|].
    destruct ((year =? 1)%Z && (month =? 1)%Z) eqn:E1; [eauto|].
    destruct Hout. lia.
Qed.

Lemma default_compare_period_witness :
  resolve_compare 3 2024 None (Some 7%Z) = Ok (2%Z, 2024%Z) ∧
  resolve_compare 1 2024 (Some 7%Z) None = Ok (12%Z, 2023%Z).
Proof.
  split.
  - apply (default_compare_period 3 2024 None (Some 7%Z) (or_introl eq_refl)); lia.
  - apply (default_compare_period 1 2024 (Some 7%Z) None (or_intror eq_refl)); lia.
Defined.

(** C10 (as stated) fails: for January of year 1 the claim gives the period
    (12, 0); the code raises [OverflowError], there being no date before
    1 January of year 1.  For a month 13 the claim gives (12, 2024); the
    code raises [ValueError]. *)
Lemma default_compare_period_counterexample :
  resolve_compare 1 1 None None = Raise OverflowError ∧
  resolve_compare 1 1 None None ≠ Ok (12%Z, 0%Z) ∧
  resolve_compare 13 2024 None None = Raise ValueError ∧
  resolve_compare 13 2024 None None ≠ Ok (12%Z, 2024%Z).
Proof. repeat split; discriminate. Qed.

(** ** The date of a created or edited record *)

Section record_date.

Variables (strptime : string → result date) (to_float : string → result Qc).


End record_date.



(** ** The handlers as a whole *)

Section handler_properties.

Variables (radians cos sin : Qc → Qc) (fmt2 : Qc → string).
Variable month_name : Z → result string.

(** Once the comparison period is resolved and both month names are found,
    [download_summary_svg] returns: nothing else in it can raise. *)
Lemma download_summary_svg_returns (table : list Expense) (today : date)
    (args : summary_args) (cm cy : Z) (n1 n2 : string) :
  let month := default (d_month today) (arg_month args) in
  let year := default (d_year today) (arg_year args) in
  resolve_compare month year (arg_compare_month args) (arg_compare_year args)
    = Ok (cm, cy) →
  month_name month = Ok n1 →
  month_name cm = Ok n2 →
  ∃ sd,
    download_summary_svg radians cos sin fmt2 month_name table today args = Ok sd ∧
    sd_compare_month sd = cm ∧ sd_compare_year sd = cy ∧
    sd_max_bar_value sd ≠ 0 ∧
    sd_max_bar_value sd =
      max_bar_value_of (sd_comparison sd) (sd_primary_total sd) (sd_compare_total sd) ∧
    bar_widths (sd_comparison sd) (sd_max_bar_value sd) = Ok (sd_bars sd).
Proof.
  intros month year Hres Hn1 Hn2.
  unfold download_summary_svg. fold month year. rewrite Hres, result_bind_Ok.
  destruct (totals_for_month table month year) as [pm pt].
  destruct (totals_for_month table cm cy) as [cmap ct].
  rewrite build_comparison_Ok, result_bind_Ok.
  rewrite !make_pie_paths_spec, !result_bind_Ok.
  rewrite Hn1, result_bind_Ok, Hn2, result_bind_Ok.
  assert (max_bar_value_of (row_of pm cmap <$> categories_of pm cmap) pt ct ≠ 0) as Hm.
  { apply Qc_pos_neq_0, max_bar_value_pos. }
  rewrite bar_widths_Ok, result_bind_Ok by done.
  eexists. split; [reflexivity|]. simpl.
  repeat split; try done. by apply bar_widths_Ok.
Qed.

(** The same for [monthly_summary]. *)
Lemma monthly_summary_returns (table : list Expense) (today : date)
    (args : summary_args) (cm cy : Z) (n1 n2 : string) :
  let month := default (d_month today) (arg_month args) in
  let year := default (d_year today) (arg_year args) in
  resolve_compare month year (arg_compare_month args) (arg_compare_year args)
    = Ok (cm, cy) →
  month_name month = Ok n1 →
  month_name cm = Ok n2 →
  ∃ sd,
    monthly_summary radians cos sin fmt2 month_name table today args = Ok sd ∧
    sd_compare_month sd = cm ∧ sd_compare_year sd = cy ∧
    sd_max_bar_value sd ≠ 0.
Proof.
  intros month year Hres Hn1 Hn2.
  unfold monthly_summary. fold month year. rewrite Hres, result_bind_Ok.
  destruct (totals_for_month table month year) as [pm pt].
  destruct (totals_for_month table cm cy) as [cmap ct].
  rewrite build_comparison_Ok, result_bind_Ok.
  assert (∃ pct,
            (if decide (ct = 0)
             then Ok (if decide (pt = 0) then PctNone else PctStr "inf")
             else Num.div (Num.round2 (pt - ct)) ct
                    ≫= λ q, Ok (PctNum (Num.round2 (q * Num.of_Z 100)))) = Ok pct)
    as [pct ->].
  { destruct (decide (ct = 0)); [eauto|]. rewrite div_nonzero by done. eauto. }
  rewrite result_bind_Ok.
  rewrite Hn1, result_bind_Ok, Hn2, result_bind_Ok.
  rewrite !make_pie_paths_spec, !result_bind_Ok.
  eexists. split; [reflexivity|]. simpl.
  repeat split. apply Qc_pos_neq_0, max_bar_value_pos.
Qed.

End handler_properties.

(** * The other handlers: properties *)

(** ** The aggregator, category by category *)

Lemma totals_loop_lookup (l : list Expense) (totals : gmap string Qc) (total : Qc)
    (cat : string) :
  fst (foldl totals_step (totals, total) l) !! cat =
    if decide (of_category cat l = []) then totals !! cat
    else Some (default 0 (totals !! cat) + sum_amounts (of_category cat l)).
Proof.
  revert totals total. induction l as [|e l IH]; intros totals total.
  { by rewrite decide_True. }
  simpl foldl. rewrite IH. unfold of_category. rewrite filter_cons.
  destruct (decide (category e = cat)) as [Heq|Hne].
  - destruct (decide (e :: _ = [])) as [?|_]; [done|]. subst cat.
    rewrite lookup_insert_eq.
    destruct (decide (filter (λ e0, category e0 = category e) l = [])) as [Hnil|Hnil].
    + rewrite Hnil. f_equal. unfold sum_amounts. rewrite foldr_cons. change (foldr _ 0 []) with (Q2Qc 0). ring.
    + f_equal. unfold sum_amounts. rewrite foldr_cons. simpl default. ring.
  - rewrite lookup_insert_ne by done. done.
Qed.

(** X1: a category is a key of the totals map exactly when the month has a
    record of it, and its value is the sum of the amounts of these
    records. *)
Theorem totals_for_month_by_category (table : list Expense) (month year : Z)
    (cat : string) :
  fst (totals_for_month table month year) !! cat =
    if decide (of_category cat (query_month table month year) = []) then None
    else Some (sum_amounts (of_category cat (query_month table month year))).
Proof.
  unfold totals_for_month. rewrite totals_loop_lookup, lookup_empty.
  destruct (decide _); [done|]. f_equal. simpl default. ring.
Qed.

(** ** Creating, editing and deleting a record *)

Section record_properties.

Variables (strptime : string → result date) (to_float : string → result Qc).

(** The two ways [add_expense] returns. *)
Lemma add_expense_Ok_inv (method : string) (form : gmap string string)
    (today : date) (table table' : list Expense) (r : response) :
  add_expense strptime to_float method form today table = Ok (r, table') →
  (table' = table ∧ r ≠ Redirect "index") ∨
  ∃ t am c a d,
    form !! "title" = Some t ∧ form !! "amount" = Some am ∧
    form !! "category" = Some c ∧ t ≠ "" ∧ am ≠ "" ∧ c ≠ "" ∧
    to_float am = Ok a ∧ r = Redirect "index" ∧
    table' = table ++ [{| title := t; amount := a; category := c; e_date := d |}].
Proof.
  unfold add_expense, form_get.
  destruct (decide (method = "POST")) as [_|_].
  2: { intros [= <- <-]. left. done. }
  destruct (form !! "title") as [t|]; [|done].
  destruct (form !! "amount") as [am|]; [|done].
  destruct (form !! "category") as [c|]; [|done].
  rewrite !result_bind_Ok.
  destruct (decide (t = "" ∨ am = "" ∨ c = "")) as [He|Hne].
  { intros [= <- <-]. left. done. }
  destruct (to_float am) as [a|e] eqn:Hfloat; [|done].
  rewrite result_bind_Ok. intros [= <- <-]. right.
  eexists t, am, c, a, _. repeat split; try done; intros ->; apply Hne; auto.
Qed.

(** The aggregator after one more row. *)
Lemma totals_for_month_snoc (table : list Expense) (e : Expense) (month year : Z) :
  totals_for_month (table ++ [e]) month year =
    if in_month month year e
    then totals_step (totals_for_month table month year) e
    else totals_for_month table month year.
Proof.
  unfold totals_for_month, query_month. rewrite List.filter_app. simpl List.filter.
  destruct (in_month month year e).
  - by rewrite foldl_app.
  - by rewrite app_nil_r.
Qed.

(** X2: a record stored by [add_expense] enters the totals of its own
    month by one accumulation step, its amount added to the grand total,
    and leaves the totals of every other month as they were. *)
Theorem add_expense_updates_one_month (form : gmap string string) (today : date)
    (table table' : list Expense) :
  add_expense strptime to_float "POST" form today table = Ok (Redirect "index", table') →
  ∃ exp,
    table' = table ++ [exp] ∧
    ∀ month year,
      totals_for_month table' month year =
        (if in_month month year exp
         then totals_step (totals_for_month table month year) exp
         else totals_for_month table month year) ∧
      snd (totals_for_month table' month year) =
        snd (totals_for_month table month year)
        + (if in_month month year exp then amount exp else 0).
Proof.
  intros [[_ Hr]|(t & am & c & a & d & _ & _ & _ & _ & _ & _ & _ & _ & ->)]%add_expense_Ok_inv;
    [done|].
  eexists. split; [done|]. intros month year.
  rewrite totals_for_month_snoc.
  destruct (in_month month year _); [|split; [done|ring]].
  split; [done|]. by destruct (totals_for_month table month year).
Qed.

(** X3: [add_expense] never alters or drops a stored record, and a record
    it stores has a non-empty title and a non-empty category. *)
Theorem add_expense_stores_nonempty (method : string) (form : gmap string string)
    (today : date) (table table' : list Expense) (r : response) :
  add_expense strptime to_float method form today table = Ok (r, table') →
  table' = table ∨
  ∃ e, table' = table ++ [e] ∧ title e ≠ "" ∧ category e ≠ "" ∧
       form !! "title" = Some (title e) ∧ form !! "category" = Some (category e).
Proof.
  intros [[-> _]|(t & am & c & a & d & Ht & _ & Hc & ? & _ & ? & _ & _ & ->)]%add_expense_Ok_inv;
    [by left|].
  right. eexists. split; [done|]. done.
Qed.

(** X4: a POST that lacks one of the three required keys is refused with
    [BadRequestKeyError]; one that gives one of them empty is sent back to
    the form and stores nothing, before the amount is even parsed. *)
Theorem add_expense_refuses (form : gmap string string) (today : date)
    (table : list Expense) :
  (form !! "title" = None ∨ form !! "amount" = None ∨ form !! "category" = None →
   add_expense strptime to_float "POST" form today table = Raise BadRequestKeyError) ∧
  (∀ t am c, form !! "title" = Some t → form !! "amount" = Some am →
     form !! "category" = Some c → t = "" ∨ am = "" ∨ c = "" →
     add_expense strptime to_float "POST" form today table
       = Ok (Redirect "add_expense", table)).
Proof.
  split.
  - unfold add_expense, form_get. rewrite decide_True by done.
    intros [H|[H|H]]; rewrite H; [done| |].
    + by destruct (form !! "title").
    + by destruct (form !! "title"), (form !! "amount").
  - intros t am c Ht Ha Hc He. unfold add_expense, form_get.
    rewrite decide_True by done. rewrite Ht, Ha, Hc, !result_bind_Ok.
    by rewrite decide_True.
Qed.

(** X5: [edit_expense] does not make the check of [add_expense]: it stores
    an empty title (or category), which [add_expense] sends back. *)
Theorem edit_expense_stores_empty_title (form : gmap string string) (today : date)
    (table : list Expense) (expense_id : nat) (expense : Expense)
    (am c : string) (a : Qc) :
  table !! expense_id = Some expense →
  form !! "title" = Some "" →
  form !! "amount" = Some am → to_float am = Ok a →
  form !! "category" = Some c →
  form !! "date" = None →
  edit_expense strptime to_float expense_id "POST" form table =
    Ok (Redirect "index",
        <[expense_id := {| title := ""; amount := a; category := c;
                           e_date := e_date expense |}]> table) ∧
  add_expense strptime to_float "POST" form today table =
    Ok (Redirect "add_expense", table).
Proof.
  intros Hrow Ht Ha Hfloat Hc Hd. split.
  - unfold edit_expense, form_get. rewrite Hrow, decide_True by done.
    rewrite Ht, Ha, Hc, Hd, !result_bind_Ok, Hfloat, result_bind_Ok.
    simpl default. by rewrite decide_False by (by intros H; apply H).
  - unfold add_expense, form_get. rewrite decide_True by done.
    rewrite Ht, Ha, Hc, !result_bind_Ok. rewrite decide_True by auto. done.
Qed.

(** X6: [edit_expense] answers [NotFound] for an id that is not in the
    table, whatever the request; when it returns, the table has the same
    length and every other row is untouched. *)
Theorem edit_expense_frame (expense_id : nat) (method : string)
    (form : gmap string string) (table : list Expense) :
  (table !! expense_id = None →
   edit_expense strptime to_float expense_id method form table = Raise NotFound) ∧
  (∀ r table',
     edit_expense strptime to_float expense_id method form table = Ok (r, table') →
     length table' = length table ∧
     ∀ j, j ≠ expense_id → table' !! j = table !! j).
Proof.
  split.
  - intros Hnone. unfold edit_expense. by rewrite Hnone.
  - intros r table'. unfold edit_expense, form_get.
    destruct (table !! expense_id) as [expense|]; [|done].
    destruct (decide (method = "POST")) as [_|_].
    2: { by intros [= <- <-]. }
    destruct (form !! "title") as [t|]; [|done].
    destruct (form !! "amount") as [am|]; [|done].
    rewrite !result_bind_Ok.
    destruct (to_float am) as [a|e]; [|done].
    destruct (form !! "category") as [c|]; [|done].
    rewrite !result_bind_Ok. intros [= <- <-].
    split; [by rewrite length_insert|].
    intros j Hj. by rewrite list_lookup_insert_ne.
Qed.

(** X7: deleting the record that [add_expense] has just stored, the last
    row of the table, gives the table back. *)
Theorem add_then_delete (form : gmap string string) (today : date)
    (table table' : list Expense) :
  add_expense strptime to_float "POST" form today table = Ok (Redirect "index", table') →
  delete_expense (length table) table' = Ok (Redirect "index", table).
Proof.
  intros [[_ Hr]|(t & am & c & a & d & _ & _ & _ & _ & _ & _ & _ & _ & ->)]%add_expense_Ok_inv;
    [done|].
  unfold delete_expense.
  rewrite lookup_app_r, Nat.sub_diag by done. simpl.
  do 2 f_equal. rewrite delete_take_drop.
  rewrite take_app_length, drop_ge; [|rewrite length_app; simpl; lia].
  by rewrite app_nil_r.
Qed.

End record_properties.

(** X8: for an id whose row is not found, [delete_expense] and
    [confirm_delete_page] answer [NotFound].  For the id of a row, the
    page is rendered with that row, and the deletion removes that row and
    no other: the rows of its month lose it and keep their order, and the
    totals of every other month are what they were. *)
Theorem delete_expense_removes_one_row (expense_id : nat) (table : list Expense) :
  (table !! expense_id = None →
   delete_expense expense_id table = Raise NotFound ∧
   confirm_delete_page expense_id table = Raise NotFound) ∧
  ∀ e, table !! expense_id = Some e →
    confirm_delete_page expense_id table
      = Ok (RenderTemplate "confirm_delete.html", e) ∧
    ∃ table',
      delete_expense expense_id table = Ok (Redirect "index", table') ∧
      table = take expense_id table' ++ e :: drop expense_id table' ∧
      ∀ month year,
        if in_month month year e
        then ∃ before after,
               query_month table month year = before ++ e :: after ∧
               query_month table' month year = before ++ after
        else totals_for_month table' month year = totals_for_month table month year.
Proof.
  split.
  - intros Hnone. unfold delete_expense, confirm_delete_page. by rewrite Hnone.
  - intros e He. unfold delete_expense, confirm_delete_page. rewrite He.
    split; [done|]. eexists. split; [done|].
    pose proof (lookup_lt_Some _ _ _ He) as Hlt.
    rewrite delete_take_drop.
    assert (length (take expense_id table) = expense_id) as Hlen
      by (rewrite length_take; lia).
    split.
    { rewrite take_app_length', drop_app_length' by done.
      symmetry. by apply take_drop_middle. }
    intros month year. destruct (in_month month year e) eqn:Hin.
    + exists (query_month (take expense_id table) month year),
        (query_month (drop (S expense_id) table) month year).
      unfold query_month. split; [|by rewrite List.filter_app].
      rewrite <- (take_drop_middle table expense_id e He) at 1.
      rewrite List.filter_app. simpl List.filter. by rewrite Hin.
    + unfold totals_for_month, query_month. f_equal.
      transitivity (List.filter (in_month month year)
                      (take expense_id table ++ e :: drop (S expense_id) table)).
      * rewrite !List.filter_app. simpl List.filter. by rewrite Hin.
      * by rewrite take_drop_middle.
Qed.

(** ** Accounts and sessions *)

Lemma find_user_None (users : list User) (name : string) :
  find_user users name = None ↔ name ∉ u_username <$> users.
Proof.
  unfold find_user. rewrite list_find_None, list_elem_of_fmap, Forall_forall.
  split.
  - intros H (u & -> & Hu). by apply (H u).
  - intros H u Hu Heq. apply H. by exists u.
Qed.

Lemma find_user_Some (users : list User) (name : string) (id : nat) (user : User) :
  find_user users name = Some (id, user) →
  users !! id = Some user ∧ u_username user = name.
Proof. unfold find_user. intros (H1 & H2 & _)%list_find_Some. done. Qed.

Section account_properties.

Variable strip : string → string.
Variable generate_password_hash : string → string.
Variable check_password_hash : string → string → bool.

(** The two ways [signup] ends: nothing stored, or one user appended whose
    name was free. *)
Lemma signup_cases (method : string) (form : gmap string string)
    (users : list User) (session : gmap string session_value) :
  let out := signup strip generate_password_hash method form users session in
  let name := strip (default "" (form !! "username")) in
  let pw := strip (default "" (form !! "password")) in
  o_session out = session ∧
  ((o_users out = users ∧ o_response out ≠ RedirectTo (Endpoint "login")) ∨
   (method = "POST" ∧ name ≠ "" ∧ pw ≠ "" ∧ find_user users name = None ∧
    o_users out = users ++ [{| u_username := name;
                               u_password := generate_password_hash pw |}] ∧
    o_response out = RedirectTo (Endpoint "login"))).
Proof.
  intros out name pw. unfold out, signup. fold name pw.
  destruct (decide (method = "POST")) as [Hm|Hm]; [|split; [done|by left]].
  destruct (decide (name = "" ∨ pw = "")) as [He|Hne]; [split; [done|by left]|].
  destruct (find_user users name) as [[id user]|] eqn:Hfind; [split; [done|by left]|].
  split; [done|]. right. repeat split; try done; intros ->; apply Hne; auto.
Qed.

(** X9: [signup] keeps user names unique, never touches the session, and
    never changes or drops a stored user. *)
Theorem signup_keeps_usernames_unique (method : string) (form : gmap string string)
    (users : list User) (session : gmap string session_value) :
  NoDup (u_username <$> users) →
  let out := signup strip generate_password_hash method form users session in
  NoDup (u_username <$> o_users out) ∧
  o_session out = session ∧
  ∃ new, o_users out = users ++ new ∧ (length new ≤ 1)%nat.
Proof.
  intros Hnd out.
  destruct (signup_cases method form users session) as (Hs & Hcase).
  fold out in Hs, Hcase.
  destruct Hcase as [[Hu _]|(_ & _ & _ & Hfind & Hu & _)].
  - rewrite Hu. split; [done|]. split; [done|]. exists [].
    split; [by rewrite app_nil_r|simpl; lia].
  - rewrite Hu. split; [|split; [done|]].
    + rewrite fmap_app. apply NoDup_app. split; [done|]. split.
      * intros x Hx [->|[]%elem_of_nil]%elem_of_cons.
        by apply find_user_None in Hfind.
      * apply NoDup_singleton.
    + eexists. split; [done|]. simpl. lia.
Qed.

(** X10: after a successful [signup], a [login] with the same form, in a
    session without user id, logs that user in: the session gets the id of
    the new row and its name, and [current_user] is the new user.  The
    hypothesis is the contract of the two hash functions. *)
Theorem signup_then_login (form : gmap string string) (next : option string)
    (users : list User) (session : gmap string session_value) :
  (∀ p, check_password_hash (generate_password_hash p) p = true) →
  session !! "user_id" = None →
  let out := signup strip generate_password_hash "POST" form users session in
  o_response out = RedirectTo (Endpoint "login") →
  let out' := login strip check_password_hash "POST" form next (o_users out)
                (o_session out) in
  let name := strip (default "" (form !! "username")) in
  o_session out' !! "user_id" = Some (SInt (length users)) ∧
  o_session out' !! "username" = Some (SStr name) ∧
  o_flashes out' = [("Logged in successfully", "success")] ∧
  ∃ user, current_user (o_users out') (o_session out') = Some user ∧
          u_username user = name.
Proof.
  intros Hhash Hsess out Hok out' name.
  destruct (signup_cases "POST" form users session) as (Hs & Hcase).
  fold out in Hs, Hcase.
  destruct Hcase as [[_ Hr]|(_ & Hn & Hp & Hfind & Hu & _)]; [done|].
  unfold out', login. rewrite Hs, Hu.
  rewrite decide_False by (rewrite Hsess; by intros [? ?]).
  rewrite decide_True by done. fold name.
  unfold find_user in *. rewrite list_find_app_r by done.
  simpl. rewrite decide_True by done. simpl.
  rewrite Hhash.
  simpl. rewrite lookup_insert_ne, lookup_insert_eq by done.
  rewrite lookup_insert_eq.
  split; [done|]. split; [done|]. split; [done|].
  unfold current_user. simpl.
  rewrite lookup_insert_ne, lookup_insert_eq by done.
  rewrite lookup_app_r, Nat.sub_diag by done. eauto.
Qed.

(** X11: [login] never changes the user table, and it changes the session
    only by logging in a stored user of the submitted name whose stored
    hash accepts the submitted password. *)
Theorem login_grants_only_checked (method : string) (form : gmap string string)
    (next : option string) (users : list User) (session : gmap string session_value) :
  let out := login strip check_password_hash method form next users session in
  o_users out = users ∧
  (o_session out = session ∨
   ∃ id user,
     users !! id = Some user ∧
     u_username user = strip (default "" (form !! "username")) ∧
     check_password_hash (u_password user) (strip (default "" (form !! "password")))
       = true ∧
     session !! "user_id" = None ∧
     o_session out = <["username" := SStr (u_username user)]>
                       (<["user_id" := SInt id]> session)).
Proof.
  intros out. unfold out, login.
  destruct (decide (is_Some (session !! "user_id"))) as [Hin|Hin]; [by split; [|left]|].
  destruct (decide (method = "POST")); [|by split; [|left]].
  destruct (find_user users _) as [[id user]|] eqn:Hfind; [|by split; [|left]].
  destruct (check_password_hash _ _) eqn:Hcheck; [|by split; [|left]].
  split; [done|]. right. exists id, user.
  apply find_user_Some in Hfind as [Hrow Hname].
  repeat split; try done.
  destruct (session !! "user_id") eqn:E; [|done]. destruct Hin. eauto.
Qed.

(** X12: a [login] that finds the user and passes the password check opens
    the protected views and makes [current_user] that user; it redirects
    to the URL of the request parameter [next] as it is given, and to the
    list page when there is none. *)
Theorem login_opens_protected_views (form : gmap string string) (next : option string)
    (users : list User) (session : gmap string session_value) (id : nat) (user : User) :
  session !! "user_id" = None →
  find_user users (strip (default "" (form !! "username"))) = Some (id, user) →
  check_password_hash (u_password user) (strip (default "" (form !! "password"))) = true →
  let out := login strip check_password_hash "POST" form next users session in
  current_user (o_users out) (o_session out) = Some user ∧
  (∀ (A : Type) (view : A) path, login_required view (o_session out) path = inr view) ∧
  o_response out =
    RedirectTo (match next with
                | Some u => if decide (u = "") then Endpoint "index" else Url u
                | None => Endpoint "index"
                end).
Proof.
  intros Hsess Hfind Hcheck out. unfold out, login.
  rewrite decide_False by (rewrite Hsess; by intros [? ?]).
  rewrite decide_True by done. rewrite Hfind, Hcheck. simpl.
  apply find_user_Some in Hfind as [Hrow _].
  split; [|split; [|done]].
  - unfold current_user. by rewrite lookup_insert_ne, lookup_insert_eq.
  - intros A view path. unfold login_required.
    by rewrite lookup_insert_ne, lookup_insert_eq.
Qed.

End account_properties.

(** ** The list page *)

Global Instance date_desc_trans : Transitive date_desc.
Proof. intros e1 e2 e3. unfold date_desc, date_le. lia. Qed.

Global Instance date_desc_total : Total date_desc.
Proof. intros e1 e2. unfold date_desc, date_le. lia. Qed.

Lemma sql_filter_nil (table : list Expense) : sql_filter [] table = table.
Proof.
  unfold sql_filter. induction table as [|e table IH]; simpl in *; [done|].
  by f_equal.
Qed.

Lemma foldl_sum_amounts (l : list Expense) (acc : Qc) :
  foldl (λ acc e, acc + amount e) acc l = acc + sum_amounts l.
Proof.
  revert acc. unfold sum_amounts. induction l as [|e l IH]; intros acc.
  - change (foldr _ 0 []) with (Q2Qc 0). simpl. ring.
  - simpl foldl. rewrite IH, foldr_cons. ring.
Qed.

(** [x or 0.0] on the sum of the rows is their sum. *)
Lemma sql_sum_or_zero (rows : list Expense) :
  match sql_sum rows with
  | Some s => if decide (s = 0) then 0 else s
  | None => 0
  end = sum_amounts rows.
Proof.
  destruct rows as [|e rows]; [done|].
  unfold sql_sum. rewrite foldl_sum_amounts.
  replace (0 + sum_amounts (e :: rows)) with (sum_amounts (e :: rows)) by ring.
  by destruct (decide (sum_amounts (e :: rows) = 0)) as [->|].
Qed.

Section index_properties.

Variables (strip lower : string → string) (ilike : string → string → bool).

Lemma index_expenses (table : list Expense) (args : index_args) :
  iv_expenses (index strip lower ilike table args) =
    order_by_date_desc (sql_filter (index_filters strip lower ilike args) table).
Proof.
  unfold index. cbn [iv_expenses].
  destruct (decide (index_filters strip lower ilike args ≠ [])) as [|Hnil]; [done|].
  apply dec_stable in Hnil. by rewrite Hnil, sql_filter_nil.
Qed.

Lemma index_month_total (table : list Expense) (args : index_args) :
  iv_month_total (index strip lower ilike table args) =
    Num.round2 (sum_amounts (sql_filter (index_filters strip lower ilike args) table)).
Proof.
  unfold index. cbn [iv_month_total]. rewrite sql_sum_or_zero.
  destruct (decide (index_filters strip lower ilike args ≠ [])) as [|Hnil]; [done|].
  apply dec_stable in Hnil. by rewrite Hnil, sql_filter_nil.
Qed.

(** X13: the list page shows each row that passes the filters once, as
    often as the table holds it, the newest first; when it lists no row,
    the total it shows is 0. *)
Theorem index_listing_sorted (table : list Expense) (args : index_args) :
  let view := index strip lower ilike table args in
  iv_expenses view ≡ₚ sql_filter (index_filters strip lower ilike args) table ∧
  StronglySorted date_desc (iv_expenses view) ∧
  (iv_expenses view = [] → iv_month_total view = 0).
Proof.
  intros view. unfold view. rewrite index_expenses, index_month_total.
  split; [|split].
  - apply merge_sort_Permutation.
  - apply (StronglySorted_merge_sort _).
  - intros Hnil.
    assert (sql_filter (index_filters strip lower ilike args) table = []) as ->.
    { apply Permutation_nil_r. rewrite <- Hnil. symmetry.
      apply merge_sort_Permutation. }
    by apply Qc_is_canon.
Qed.

Lemma and_iff (A B C D : Prop) : (A ↔ B) → (C ↔ D) → (A ∧ C ↔ B ∧ D).
Proof. tauto. Qed.

Lemma index_filters_parts (args : index_args) :
  let q := strip (default "" (arg_q args)) in
  let cat := strip (default "all" (arg_category args)) in
  index_filters strip lower ilike args =
    (if decide (q ≠ "") then [λ e, ilike ("%" +:+ q +:+ "%") (title e)] else []) ++
    (if decide (cat ≠ "" ∧ lower cat ≠ "all") then [category_is cat] else []) ++
    match arg_filter_month args, arg_filter_year args with
    | Some m, Some y => if decide (m ≠ 0%Z ∧ y ≠ 0%Z) then [year_is y; month_is m] else []
    | _, _ => []
    end.
Proof.
  intros q cat. unfold index_filters. fold q cat.
  destruct (decide (q ≠ "")), (decide (cat ≠ "" ∧ lower cat ≠ "all")),
    (arg_filter_month args) as [m|], (arg_filter_year args) as [y|];
    try destruct (decide (m ≠ 0%Z ∧ y ≠ 0%Z)); done.
Qed.

Lemma passes_index_filters (args : index_args) (e : Expense) :
  let q := strip (default "" (arg_q args)) in
  let cat := strip (default "all" (arg_category args)) in
  forallb (λ f : Expense → bool, f e) (index_filters strip lower ilike args) = true ↔
  (q ≠ "" → ilike ("%" +:+ q +:+ "%") (title e) = true) ∧
  (cat ≠ "" → lower cat ≠ "all" → category e = cat) ∧
  (∀ m y, arg_filter_month args = Some m → arg_filter_year args = Some y →
          m ≠ 0%Z → y ≠ 0%Z → d_year (e_date e) = y ∧ d_month (e_date e) = m).
Proof.
  intros q cat. rewrite index_filters_parts. fold q cat.
  rewrite !forallb_app, !andb_true_iff.
  apply and_iff; [|apply and_iff].
  - destruct (decide (q ≠ "")) as [Hq|Hq]; simpl.
    + rewrite andb_true_r. split; [by intros ? _ | intros H; by apply H].
    + split; [by intros _ ? | done].
  - destruct (decide (cat ≠ "" ∧ lower cat ≠ "all")) as [Hc|Hc]; simpl.
    + rewrite andb_true_r. unfold category_is. rewrite bool_decide_eq_true.
      split; [by intros ? _ _ | intros H; apply H; apply Hc].
    + split; [|done]. intros _ ? ?. destruct Hc. done.
  - destruct (arg_filter_month args) as [m|], (arg_filter_year args) as [y|];
      try (split; [intros _ ? ? ? ?; done | done]).
    destruct (decide (m ≠ 0%Z ∧ y ≠ 0%Z)) as [Hd|Hd]; simpl.
    + rewrite andb_true_r, andb_true_iff. unfold year_is, month_is.
      rewrite !bool_decide_eq_true. split.
      * intros [? ?] ? ? [= <-] [= <-] _ _. done.
      * intros H. apply (H m y); tauto.
    + split; [|done]. intros _ ? ? [= <-] [= <-] ? ?. destruct Hd. done.
Qed.

(** X14: a row is listed exactly when it is in the table and passes the
    search, when there is one, the category, unless it is empty or "all"
    in any case, and the month and year, when both are given and neither
    is 0: a month alone or a year alone filters nothing. *)
Theorem index_lists_matching_rows (table : list Expense) (args : index_args)
    (e : Expense) :
  let q := strip (default "" (arg_q args)) in
  let cat := strip (default "all" (arg_category args)) in
  e ∈ iv_expenses (index strip lower ilike table args) ↔
  e ∈ table ∧
  (q ≠ "" → ilike ("%" +:+ q +:+ "%") (title e) = true) ∧
  (cat ≠ "" → lower cat ≠ "all" → category e = cat) ∧
  (∀ m y, arg_filter_month args = Some m → arg_filter_year args = Some y →
          m ≠ 0%Z → y ≠ 0%Z → d_year (e_date e) = y ∧ d_month (e_date e) = m).
Proof.
  intros q cat. rewrite index_expenses.
  unfold order_by_date_desc. rewrite merge_sort_Permutation.
  unfold sql_filter. rewrite list_elem_of_In, filter_In, <- list_elem_of_In.
  by rewrite passes_index_filters.
Qed.

End index_properties.

(** ** Swapping the two periods *)

Lemma categories_of_comm (pm cm : gmap string Qc) :
  categories_of cm pm = categories_of pm cm.
Proof.
  unfold categories_of. do 2 f_equal.
  apply set_eq. intros x. rewrite !elem_of_list_to_set, !elem_of_app. tauto.
Qed.

(** X15: comparing the periods the other way round gives the same
    categories in the same order, with primary and compare values
    exchanged, the difference negated, and the two slice lists exchanged. *)
Theorem comparison_swap (pm cm : gmap string Qc) :
  ∃ rows ps cs rows',
    build_comparison pm cm = Ok (rows, ps, cs) ∧
    build_comparison cm pm = Ok (rows', cs, ps) ∧
    Forall2 (λ r r', row_category r' = row_category r ∧
                     row_primary r' = row_compare r ∧
                     row_compare r' = row_primary r ∧
                     row_diff r' = - row_diff r) rows rows'.
Proof.
  eexists _, _, _, _. split; [apply build_comparison_Ok|].
  split; [by rewrite build_comparison_Ok, categories_of_comm|].
  apply Forall2_fmap, Forall_Forall2_diag, Forall_forall. intros cat _.
  unfold row_of. simpl. repeat split. ring.
Qed.

(** ** Bar widths *)







(** ** Pie colors *)

Lemma emitted_index (total start : Qc) (i : nat) (slices : list slice)
    (x : nat * Qc * slice) :
  x ∈ emitted total start i slices →
  ∃ j, x.1.1 = (i + j)%nat ∧ slices !! j = Some x.2.
Proof.
  revert start i. induction slices as [|s rest IH]; intros start i; simpl.
  - by intros ?%elem_of_nil.
  - assert (∀ start', x ∈ emitted total start' (S i) rest →
              ∃ j, x.1.1 = (i + j)%nat ∧ (s :: rest) !! j = Some x.2) as Hrest.
    { intros start' (j & Hj & Hl)%IH. exists (S j). split; [lia|done]. }
    destruct (decide (sl_value s ≤ 0)); [by apply Hrest|].
    intros [->|Hin]%elem_of_cons; [|by eapply Hrest].
    exists 0%nat. split; [simpl; lia|done].
Qed.

Lemma emitted_indices_NoDup (total start : Qc) (i : nat) (slices : list slice) :
  NoDup ((λ x : nat * Qc * slice, x.1.1) <$> emitted total start i slices).
Proof.
  revert start i. induction slices as [|s rest IH]; intros start i; simpl.
  - constructor.
  - destruct (decide (sl_value s ≤ 0)); [apply IH|].
    rewrite fmap_cons. apply NoDup_cons. split; [|apply IH].
    intros (x & Hx & (j & Hj & _)%emitted_index)%list_elem_of_fmap.
    simpl in Hx. lia.
Qed.

Section pie_color_properties.

Variables (radians cos sin : Qc → Qc) (fmt2 : Qc → string).

(** X17: in the downloaded document a pie slice has the color of the
    legend entry of its category: the slice of the category at position
    [i] of the sorted category list is filled with the color of the [i]-th
    legend entry, in both pies and for any totals. *)
Theorem pie_colors_match_legend (pm cm : gmap string Qc) :
  ∃ rows ps cs,
    build_comparison pm cm = Ok (rows, ps, cs) ∧
    ∀ slices total, slices = ps ∨ slices = cs →
      ∃ paths,
        make_pie_paths radians cos sin fmt2 slices total
          (Num.of_Z 120) (Num.of_Z 120) (Num.of_Z 100) None = Ok paths ∧
        Forall (λ p, ∃ i,
                  categories_of pm cm !! i = Some (p_label p) ∧
                  legend_entry i (p_label p) =
                    Ok [ lit "<rect x='" +:+ pretty (Z.of_nat i * 160)%Z +:+
                           lit "' y='0' width='12' height='10' fill='" +:+
                           p_color p +:+ lit "'></rect>";
                         lit "<text x='" +:+ pretty (Z.of_nat i * 160 + 18)%Z +:+
                           lit "' y='9'>" +:+ p_label p +:+ "</text>" ]) paths.
Proof.
  eexists _, _, _. split; [apply build_comparison_Ok|].
  intros slices total Hslices.
  eexists. split; [apply make_pie_paths_spec|].
  destruct (decide (total ≤ 0)); [constructor|].
  apply Forall_fmap, Forall_forall. intros [[i start] s] Hx.
  apply emitted_index in Hx as (j & Hj & Hs). simpl in Hj, Hs. subst i.
  exists j. simpl. split.
  - destruct Hslices as [-> | ->];
      apply list_lookup_fmap_Some in Hs as (cat & -> & Hcat); done.
  - unfold legend_entry. rewrite palette_at_Ok by done. done.
Qed.

(** X18: with no more slices than palette entries, and a palette without
    repetition such as the default one, no two emitted slices share a
    color. *)
Theorem pie_colors_distinct (slices : list slice) (total cx cy r : Qc)
    (colors : option (list string)) :
  (length slices ≤ length (effective_colors colors))%nat →
  NoDup (effective_colors colors) →
  ∃ paths,
    make_pie_paths radians cos sin fmt2 slices total cx cy r colors = Ok paths ∧
    NoDup (p_color <$> paths) ∧
    NoDup (effective_colors None).
Proof.
  intros Hlen Hnd.
  eexists. split; [apply make_pie_paths_spec|].
  split; [|by apply (bool_decide_unpack _)].
  destruct (decide (total ≤ 0)); [constructor|].
  rewrite <- list_fmap_compose.
  set (cs := effective_colors colors) in *.
  replace (p_color ∘ emit3 radians cos sin fmt2 total cx cy r cs <$> emitted total 0 0 slices)
    with ((λ k, default "" (cs !! (k mod length cs)%nat)) <$>
          ((λ x : nat * Qc * slice, x.1.1) <$> emitted total 0 0 slices))
    by (by rewrite <- list_fmap_compose).
  apply NoDup_fmap_2_strong; [|apply emitted_indices_NoDup].
  intros k1 k2 (x1 & -> & (j1 & Hj1 & Hs1)%emitted_index)%list_elem_of_fmap
                (x2 & -> & (j2 & Hj2 & Hs2)%emitted_index)%list_elem_of_fmap.
  apply lookup_lt_Some in Hs1, Hs2.
  rewrite Hj1, Hj2. simpl.
  rewrite !Nat.mod_small by lia.
  destruct (lookup_lt_is_Some_2 cs j1) as [c1 Hc1]; [lia|].
  destruct (lookup_lt_is_Some_2 cs j2) as [c2 Hc2]; [lia|].
  rewrite Hc1, Hc2. simpl. intros ->.
  by eapply NoDup_lookup.
Qed.

(** X19: a slice that is the whole pie is the only path emitted; its
    percentage is 100, and its arc runs from the point at 0 degrees to the
    point at 360 degrees, a full turn further, with the large-arc flag
    set. *)
Theorem pie_full_circle_arc (slices : list slice) (total cx cy r : Qc)
    (colors : option (list string)) (s : slice) :
  0 < total →
  filter (λ s, 0 < sl_value s) slices = [s] →
  sl_value s = total →
  ∃ p,
    make_pie_paths radians cos sin fmt2 slices total cx cy r colors = Ok [p] ∧
    p_label p = sl_category s ∧
    p_pct p = Num.of_Z 100 ∧
    p_d p = render_path fmt2
              [MoveTo cx cy;
               LineTo (arc_x radians cos cx r 0) (arc_y radians sin cy r 0);
               ArcTo r r 0 true true
                 (arc_x radians cos cx r (Num.of_Z 360))
                 (arc_y radians sin cy r (Num.of_Z 360));
               ClosePath].
Proof.
  intros Ht Hone Hs.
  assert (total ≠ 0) as Ht0 by (by apply Qc_pos_neq_0).
  pose proof (emitted_slices total 0 0 slices) as Hem. rewrite Hone in Hem.
  destruct (emitted total 0 0 slices) as [|[[i start] s'] [|? ?]] eqn:Heq; [done| |done].
  injection Hem as ->.
  assert (start = 0) as ->.
  { destruct (emitted_lookup total 0 0 0 slices (i, start, s)) as [_ H]; [by rewrite Heq|].
    simpl in H. rewrite H. unfold sum_list. simpl. ring. }
  eexists. split.
  { rewrite make_pie_paths_spec, decide_False by (by apply Qclt_not_le).
    by rewrite Heq. }
  split; [reflexivity|]. split.
  { unfold emit3, emit. cbn [p_pct fst snd]. rewrite Hs.
    replace (total / total * Num.of_Z 100) with (Num.of_Z 10000 / Num.of_Z 100).
    - rewrite round2_hundredths. by apply Qc_is_canon.
    - replace (total / total) with 1 by (field; done). by apply Qc_is_canon. }
  rewrite <- path_d_render. unfold emit3, emit. cbn [p_d fst snd].
  assert (span total s = Num.of_Z 360) as ->.
  { unfold span. rewrite Hs. field. done. }
  rewrite decide_True by (by apply (bool_decide_unpack _)).
  replace (0 + Num.of_Z 360) with (Num.of_Z 360) by ring.
  reflexivity.
Qed.

End pie_color_properties.

(** ** A period without records *)

Lemma round2_zero : Num.round2 0 = 0.
Proof. by apply Qc_is_canon. Qed.

Section summary_properties.

Variables (radians cos sin : Qc → Qc) (fmt2 str_float : Qc → string).
Variable month_name : Z → result string.

(** What [download_summary_svg] has computed when it returns. *)
Lemma download_summary_svg_inv (table : list Expense) (today : date)
    (args : summary_args) (sd : summary_data) :
  download_summary_svg radians cos sin fmt2 month_name table today args = Ok sd →
  let month := default (d_month today) (arg_month args) in
  let year := default (d_year today) (arg_year args) in
  let pt := totals_for_month table month year in
  let ct := totals_for_month table (sd_compare_month sd) (sd_compare_year sd) in
  let cats := categories_of pt.1 ct.1 in
  resolve_compare month year (arg_compare_month args) (arg_compare_year args)
    = Ok (sd_compare_month sd, sd_compare_year sd) ∧
  sd_comparison sd = row_of pt.1 ct.1 <$> cats ∧
  sd_primary_total sd = pt.2 ∧ sd_compare_total sd = ct.2 ∧
  make_pie_paths radians cos sin fmt2
    ((λ cat, mkSlice cat (Num.round2 (default 0 (pt.1 !! cat)))) <$> cats) pt.2
    (Num.of_Z 120) (Num.of_Z 120) (Num.of_Z 100) None = Ok (sd_primary_pie sd) ∧
  make_pie_paths radians cos sin fmt2
    ((λ cat, mkSlice cat (Num.round2 (default 0 (ct.1 !! cat)))) <$> cats) ct.2
    (Num.of_Z 120) (Num.of_Z 120) (Num.of_Z 100) None = Ok (sd_compare_pie sd).
Proof.
  unfold download_summary_svg.
  destruct (resolve_compare _ _ _ _) as [[cm cy]|e]; [|done].
  rewrite result_bind_Ok.
  destruct (totals_for_month table _ _) as [pm pt] eqn:Hp.
  destruct (totals_for_month table cm cy) as [cmap ct] eqn:Hc.
  rewrite build_comparison_Ok, result_bind_Ok.
  rewrite !make_pie_paths_spec, !result_bind_Ok.
  destruct (month_name (default _ _)) as [n1|]; [|intros [=]].
  rewrite result_bind_Ok.
  destruct (month_name cm) as [n2|]; [|intros [=]]. rewrite result_bind_Ok.
  rewrite bar_widths_Ok by apply Qc_pos_neq_0, max_bar_value_pos.
  rewrite result_bind_Ok. intros [= <-]. simpl.
  rewrite Hc. done.
Qed.

(** X20: when the comparison period has no record, its total is 0, every
    row has a compare value of 0 and a percent change that is null or
    "inf", never a number, the compare pie has no slice, and the document
    draws the "No data" placeholder in its place. *)
Theorem compare_period_without_records (table : list Expense) (today : date)
    (args : summary_args) (sd : summary_data) :
  download_summary_svg radians cos sin fmt2 month_name table today args = Ok sd →
  query_month table (sd_compare_month sd) (sd_compare_year sd) = [] →
  sd_compare_total sd = 0 ∧
  sd_compare_pie sd = [] ∧
  Forall (λ row, row_compare row = 0 ∧
                 (row_pct_change row = PctNone ∨ row_pct_change row = PctStr "inf"))
         (sd_comparison sd) ∧
  pie_parts fmt2 str_float (sd_compare_pie sd) =
    [ lit "<circle cx='120' cy='120' r='90' fill='#f1f3f5'></circle>";
      lit "<text x='120' y='120' text-anchor='middle' dominant-baseline='middle' font-family='Arial, sans-serif' font-size='12' fill='#666'>No data</text>" ].
Proof.
  intros (_ & Hrows & _ & Hct & _ & Hpie)%download_summary_svg_inv Hempty.
  assert (totals_for_month table (sd_compare_month sd) (sd_compare_year sd) = (∅, 0))
    as Htot.
  { unfold totals_for_month. by rewrite Hempty. }
  rewrite Htot in Hrows, Hct, Hpie. simpl in Hrows, Hct, Hpie.
  rewrite make_pie_paths_spec, decide_True in Hpie by done.
  injection Hpie as <-.
  split; [done|]. split; [done|]. split; [|done].
  rewrite Hrows. apply Forall_fmap, Forall_forall. intros cat _.
  unfold row_of, compose. cbn [row_compare row_pct_change].
  rewrite lookup_empty. cbn [default from_option id]. rewrite round2_zero.
  split; [reflexivity|]. rewrite decide_True by reflexivity.
  destruct (decide _); auto.
Qed.

End summary_properties.

(** ** The layout of the document *)

Section document_properties.

Variables (fmt2 str_float : Qc → string) (month_name : Z → result string).

Lemma bar_parts_Ok (max_bar_value : Qc) (y : Z) (comparison : list comparison_row) :
  max_bar_value ≠ 0 →
  ∃ ps, bar_parts fmt2 str_float max_bar_value y comparison = Ok ps ∧
        length ps = (5 * length comparison)%nat.
Proof.
  intros Hm. revert y. induction comparison as [|row rest IH]; intros y; simpl.
  - by exists [].
  - unfold bar_row_parts. rewrite !bar_width_Ok, !result_bind_Ok by done.
    destruct (IH (y + row_h)%Z) as (qs & -> & Hlen).
    rewrite result_bind_Ok. eexists. split; [done|].
    rewrite length_app, Hlen. simpl. lia.
Qed.

Lemma legend_parts_Ok (i : nat) (categories : list string) :
  ∃ ps, legend_parts i categories = Ok ps ∧ length ps = (2 * length categories)%nat.
Proof.
  revert i. induction categories as [|cat rest IH]; intros i; simpl.
  - by exists [].
  - unfold legend_entry. rewrite palette_at_Ok, result_bind_Ok by done.
    destruct (IH (S i)) as (qs & -> & Hlen).
    rewrite result_bind_Ok. eexists. split; [done|].
    rewrite length_app, Hlen. simpl. lia.
Qed.

Lemma svg_parts_Ok (month year compare_month compare_year : Z)
    (categories : list string) (comparison : list comparison_row)
    (max_bar_value primary_total compare_total : Qc)
    (primary_pie compare_pie : list pie_path) (name compare_name : string) :
  month_name month = Ok name →
  month_name compare_month = Ok compare_name →
  max_bar_value ≠ 0 →
  ∃ parts,
    svg_parts fmt2 str_float month_name month year compare_month compare_year
      categories comparison max_bar_value primary_total compare_total
      primary_pie compare_pie = Ok parts.
Proof.
  intros Hn Hcn Hm.
  destruct (bar_parts_Ok max_bar_value top_margin comparison Hm) as (bars & Hbars & _).
  destruct (legend_parts_Ok 0 categories) as (legend & Hleg & _).
  unfold svg_parts.
  rewrite Hn, result_bind_Ok, Hcn, result_bind_Ok, Hbars, result_bind_Ok,
    Hleg, result_bind_Ok.
  by eexists.
Qed.

(** X21: once both month names are found the document is assembled.  It
    opens with the XML declaration and a root element whose view box is
    1200 wide and max(82 + 56 * rows, 320) high, closes with the end tag of
    the root, and holds 24 parts besides five per row, two per legend entry
    and the pie parts.  The compare pie is always placed at y = 320: with
    at most 4 rows that is the lower edge of the view box, and the pie,
    which reaches down to y = 572, fits only from 9 rows on. *)
Theorem svg_document_layout (month year compare_month compare_year : Z)
    (categories : list string) (comparison : list comparison_row)
    (max_bar_value primary_total compare_total : Qc)
    (primary_pie compare_pie : list pie_path) (name compare_name : string) :
  month_name month = Ok name →
  month_name compare_month = Ok compare_name →
  max_bar_value ≠ 0 →
  let rows := Z.of_nat (length comparison) in
  ∃ parts,
    svg_parts fmt2 str_float month_name month year compare_month compare_year
      categories comparison max_bar_value primary_total compare_total
      primary_pie compare_pie = Ok parts ∧
    parts !! 0%nat = Some (lit "<?xml version='1.0' encoding='UTF-8'?>") ∧
    parts !! 1%nat =
      Some (lit "<svg xmlns='http://www.w3.org/2000/svg' viewBox='0 0 1200 " +:+
            pretty (vg_height rows) +:+ lit "'>") ∧
    last parts = Some "</svg>" ∧
    length parts =
      (24 + 5 * length comparison + 2 * length categories
       + length (pie_parts fmt2 str_float primary_pie)
       + length (pie_parts fmt2 str_float compare_pie))%nat ∧
    lit "<g transform='translate(800, 320)'>" ∈ parts ∧
    vg_height rows = Z.max (82 + 56 * rows) 320 ∧
    ((rows ≤ 4)%Z → vg_height rows = pie2_top) ∧
    ((pie2_top + 12 + 240 ≤ vg_height rows)%Z ↔ (9 ≤ rows)%Z).
Proof.
  intros Hn Hcn Hm rows.
  destruct (bar_parts_Ok max_bar_value top_margin comparison Hm) as (bars & Hbars & Hbl).
  destruct (legend_parts_Ok 0 categories) as (legend & Hleg & Hll).
  unfold svg_parts.
  rewrite Hn, result_bind_Ok, Hcn, result_bind_Ok, Hbars, result_bind_Ok,
    Hleg, result_bind_Ok.
  eexists. split; [done|].
  split; [done|]. split; [done|]. split.
  { by rewrite !last_app. }
  split.
  { unfold pie_group. rewrite !length_app, Hbl, Hll. simpl. rewrite ?length_app. simpl. lia. }
  split.
  { apply elem_of_app. right. apply elem_of_app. right. apply elem_of_app. right.
    apply elem_of_app. right. apply elem_of_app. left.
    unfold pie_group. apply elem_of_app. left. apply elem_of_cons. by left. }
  unfold vg_height, bar_area_height, top_margin, row_h, pie_area_height, pie2_top.
  fold rows. lia.
Qed.

End document_properties.

(** ** The page and the download *)

Section page_and_download.

Variables (radians cos sin : Qc → Qc) (fmt2 str_float : Qc → string).
Variable month_name : Z → result string.

(** X22: for the same request over the same table, the summary page and
    the download resolve the comparison period alike: when that fails,
    both fail with its exception.  Whenever both return, they show the
    same periods, rows, pies and bar scale, and the totals of the page are
    those of the download rounded to two decimals. *)
Theorem summary_page_and_download_agree (table : list Expense) (today : date)
    (args : summary_args) :
  (∀ e,
     resolve_compare (default (d_month today) (arg_month args))
       (default (d_year today) (arg_year args))
       (arg_compare_month args) (arg_compare_year args) = Raise e →
     monthly_summary radians cos sin fmt2 month_name table today args = Raise e ∧
     download_summary_svg radians cos sin fmt2 month_name table today args = Raise e) ∧
  (∀ page svg,
     monthly_summary radians cos sin fmt2 month_name table today args = Ok page →
     download_summary_svg radians cos sin fmt2 month_name table today args = Ok svg →
     sd_month page = sd_month svg ∧ sd_year page = sd_year svg ∧
     sd_compare_month page = sd_compare_month svg ∧
     sd_compare_year page = sd_compare_year svg ∧
     sd_comparison page = sd_comparison svg ∧
     sd_max_bar_value page = sd_max_bar_value svg ∧
     sd_primary_pie page = sd_primary_pie svg ∧
     sd_compare_pie page = sd_compare_pie svg ∧
     sd_primary_total page = Num.round2 (sd_primary_total svg) ∧
     sd_compare_total page = Num.round2 (sd_compare_total svg)).
Proof.
  split.
  { intros e He. unfold monthly_summary, download_summary_svg. by rewrite He. }
  intros page svg. unfold monthly_summary, download_summary_svg.
  destruct (resolve_compare _ _ _ _) as [[cm cy]|e]; [|intros [=]].
  rewrite !result_bind_Ok.
  destruct (totals_for_month table _ _) as [pm pt].
  destruct (totals_for_month table cm cy) as [cmap ct].
  rewrite build_comparison_Ok, !result_bind_Ok.
  assert (∃ pct,
            (if decide (ct = 0)
             then Ok (if decide (pt = 0) then PctNone else PctStr "inf")
             else Num.div (Num.round2 (pt - ct)) ct
                    ≫= λ q, Ok (PctNum (Num.round2 (q * Num.of_Z 100)))) = Ok pct)
    as [pct ->].
  { destruct (decide (ct = 0)); [eauto|]. rewrite div_nonzero by done. eauto. }
  rewrite !make_pie_paths_spec, !result_bind_Ok.
  destruct (month_name (default _ _)) as [n1|e1]; [|intros [=]].
  rewrite !result_bind_Ok.
  destruct (month_name cm) as [n2|e2]; [|intros [=]].
  rewrite !result_bind_Ok.
  rewrite bar_widths_Ok by apply Qc_pos_neq_0, max_bar_value_pos.
  rewrite result_bind_Ok. intros [= <-] [= <-].
  cbn [sd_month sd_year sd_compare_month sd_compare_year
    sd_comparison sd_max_bar_value sd_primary_pie sd_compare_pie sd_primary_total
    sd_compare_total].
  repeat split.
Qed.

(** X23: whenever the values of the download are computed (the period
    resolved, the pies built, the month names found, the bars scaled), the
    assembly of the document adds no failure: the handler answers with an
    SVG attachment whose file name gives both periods and whose body is
    the parts of the document joined by newlines. *)
Theorem download_summary_svg_answers (table : list Expense) (today : date)
    (args : summary_args) (sd : summary_data) :
  download_summary_svg radians cos sin fmt2 month_name table today args = Ok sd →
  ∃ parts,
    svg_parts fmt2 str_float month_name (sd_month sd) (sd_year sd)
      (sd_compare_month sd) (sd_compare_year sd)
      (row_category <$> sd_comparison sd) (sd_comparison sd) (sd_max_bar_value sd)
      (sd_primary_total sd) (sd_compare_total sd)
      (sd_primary_pie sd) (sd_compare_pie sd) = Ok parts ∧
    download_summary_svg_response fmt2 str_float month_name radians cos sin
      table today args =
      Ok {| body := String.concat newline parts;
            mimetype := "image/svg+xml";
            content_disposition :=
              lit "attachment; filename='comparison_" +:+ pretty (sd_year sd) +:+
              "_" +:+ pretty (sd_month sd) +:+ "_vs_" +:+
              pretty (sd_compare_year sd) +:+ "_" +:+
              pretty (sd_compare_month sd) +:+ lit ".svg'" |}.
Proof.
  unfold download_summary_svg, download_summary_svg_response.
  set (month := default (d_month today) (arg_month args)).
  set (year := default (d_year today) (arg_year args)).
  destruct (resolve_compare _ _ _ _) as [[cm cy]|e]; [|intros [=]].
  rewrite !result_bind_Ok.
  destruct (totals_for_month table month year) as [pm pt].
  destruct (totals_for_month table cm cy) as [cmap ct].
  rewrite build_comparison_Ok, !result_bind_Ok.
  rewrite (mapM_total _ _ _ (comparison_body_Ok pm cmap)), result_bind_Ok.
  rewrite <- !list_fmap_compose.
  change (fst ∘ fst ∘ _) with (row_of pm cmap).
  change (snd ∘ fst ∘ _)
    with (λ cat, mkSlice cat (Num.round2 (default 0 (pm !! cat)))).
  change (snd ∘ _) with (λ cat, mkSlice cat (Num.round2 (default 0 (cmap !! cat)))).
  rewrite !make_pie_paths_spec, !result_bind_Ok.
  destruct (month_name month) as [n1|e1] eqn:Hn1; [|intros [=]].
  rewrite result_bind_Ok.
  destruct (month_name cm) as [n2|e2] eqn:Hn2; [|intros [=]].
  rewrite result_bind_Ok.
  assert (max_bar_value_of (row_of pm cmap <$> categories_of pm cmap) pt ct ≠ 0) as Hm.
  { apply Qc_pos_neq_0, max_bar_value_pos. }
  rewrite bar_widths_Ok, result_bind_Ok by done.
  intros [= <-].
  cbn [sd_month sd_year sd_compare_month sd_compare_year sd_comparison
    sd_max_bar_value sd_primary_pie sd_compare_pie sd_primary_total sd_compare_total].
  assert (row_category <$> (row_of pm cmap <$> categories_of pm cmap)
          = categories_of pm cmap) as ->.
  { rewrite <- list_fmap_compose. apply list_fmap_id. }
  edestruct (svg_parts_Ok fmt2 str_float month_name month year cm cy) as [parts Hparts];
    [exact Hn1|exact Hn2|exact Hm|].
  exists parts. split; [exact Hparts|].
  match goal with
  | |- ?l ≫= _ = _ =>
      replace l with (Ok parts : result (list string)) by (symmetry; exact Hparts)
  end.
  rewrite result_bind_Ok. unfold svg_filename.
  rewrite !string_app_assoc. reflexivity.
Qed.

End page_and_download.

(** ** The properties on examples *)

Lemma add_expense_updates_one_month_witness :
  ∃ exp,
    example_table ++ [{| title := "Lunch"; amount := Q2Qc (25 # 2);
                         category := "Food"; e_date := example_today |}]
      = example_table ++ [exp] ∧
    ∀ month year,
      totals_for_month
        (example_table ++ [{| title := "Lunch"; amount := Q2Qc (25 # 2);
                              category := "Food"; e_date := example_today |}])
        month year =
        (if in_month month year exp
         then totals_step (totals_for_month example_table month year) exp
         else totals_for_month example_table month year) ∧
      snd (totals_for_month
             (example_table ++ [{| title := "Lunch"; amount := Q2Qc (25 # 2);
                                   category := "Food"; e_date := example_today |}])
             month year) =
        snd (totals_for_month example_table month year)
        + (if in_month month year exp then amount exp else 0).
Proof.
  apply (add_expense_updates_one_month example_strptime example_to_float example_form
           example_today example_table).
  reflexivity.
Defined.

Lemma add_expense_stores_nonempty_witness :
  example_table ++ [{| title := "Lunch"; amount := Q2Qc (25 # 2);
                       category := "Food"; e_date := example_today |}]
    = example_table ∨
  ∃ e, example_table ++ [{| title := "Lunch"; amount := Q2Qc (25 # 2);
                            category := "Food"; e_date := example_today |}]
         = example_table ++ [e] ∧
       title e ≠ "" ∧ category e ≠ "" ∧
       example_form !! "title" = Some (title e) ∧
       example_form !! "category" = Some (category e).
Proof.
  apply (add_expense_stores_nonempty example_strptime example_to_float "POST"
           example_form example_today example_table _ (Redirect "index")).
  reflexivity.
Defined.

Lemma edit_expense_stores_empty_title_witness :
  edit_expense example_strptime example_to_float 0 "POST" example_untitled_form
    example_table =
    Ok (Redirect "index",
        [{| title := ""; amount := Q2Qc (25 # 2); category := "Food";
            e_date := Date 2024 1 15 |}]) ∧
  add_expense example_strptime example_to_float "POST" example_untitled_form
    example_today example_table = Ok (Redirect "add_expense", example_table).
Proof.
  apply (edit_expense_stores_empty_title example_strptime example_to_float
           example_untitled_form example_today example_table 0
           {| title := "Lunch"; amount := Num.of_Z 10; category := "Food";
              e_date := Date 2024 1 15 |} "12.50" "Food" (Q2Qc (25 # 2)));
    reflexivity.
Defined.

Lemma add_then_delete_witness :
  delete_expense (length example_table)
    (example_table ++ [{| title := "Lunch"; amount := Q2Qc (25 # 2);
                          category := "Food"; e_date := example_today |}])
    = Ok (Redirect "index", example_table).
Proof.
  apply (add_then_delete example_strptime example_to_float example_form example_today).
  reflexivity.
Defined.

Lemma signup_keeps_usernames_unique_witness :
  let out := signup example_strip example_hash "POST" example_signup_form
               example_users ∅ in
  NoDup (u_username <$> o_users out) ∧
  o_session out = ∅ ∧
  ∃ new, o_users out = example_users ++ new ∧ (length new ≤ 1)%nat.
Proof.
  apply (signup_keeps_usernames_unique example_strip example_hash "POST"
           example_signup_form example_users ∅).
  apply (bool_decide_unpack _). vm_compute. exact I.
Defined.

Lemma signup_then_login_witness :
  let out := signup example_strip example_hash "POST" example_signup_form
               example_users ∅ in
  let out' := login example_strip example_check "POST" example_signup_form None
                (o_users out) (o_session out) in
  o_session out' !! "user_id" = Some (SInt 1) ∧
  o_session out' !! "username" = Some (SStr "bob") ∧
  o_flashes out' = [("Logged in successfully", "success")] ∧
  ∃ user, current_user (o_users out') (o_session out') = Some user ∧
          u_username user = "bob".
Proof.
  apply (signup_then_login example_strip example_hash example_check
           example_signup_form None example_users ∅).
  - intros p. apply bool_decide_eq_true_2. reflexivity.
  - reflexivity.
  - reflexivity.
Defined.

Lemma login_opens_protected_views_witness :
  let out := login example_strip example_check "POST" example_login_form
               (Some "/summary") example_users ∅ in
  current_user (o_users out) (o_session out)
    = Some {| u_username := "ann"; u_password := example_hash "secret" |} ∧
  (∀ (A : Type) (view : A) path, login_required view (o_session out) path = inr view) ∧
  o_response out = RedirectTo (Url "/summary").
Proof.
  apply (login_opens_protected_views example_strip example_check example_login_form
           (Some "/summary") example_users ∅ 0
           {| u_username := "ann"; u_password := example_hash "secret" |});
    reflexivity.
Defined.


Lemma pie_colors_distinct_witness :
  ∃ paths,
    make_pie_paths example_trig example_trig example_trig example_fmt2
      example_slices (Num.of_Z 150) (Num.of_Z 120) (Num.of_Z 120) (Num.of_Z 100) None
      = Ok paths ∧
    NoDup (p_color <$> paths) ∧
    NoDup (effective_colors None).
Proof.
  apply (pie_colors_distinct example_trig example_trig example_trig example_fmt2
           example_slices (Num.of_Z 150) (Num.of_Z 120) (Num.of_Z 120)
           (Num.of_Z 100) None).
  - vm_compute. lia.
  - apply (bool_decide_unpack _). vm_compute. exact I.
Defined.

Lemma pie_full_circle_arc_witness :
  ∃ p,
    make_pie_paths example_trig example_trig example_trig example_fmt2
      [mkSlice "Food" (Num.of_Z 100); mkSlice "Travel" 0] (Num.of_Z 100)
      (Num.of_Z 120) (Num.of_Z 120) (Num.of_Z 100) None = Ok [p] ∧
    p_label p = "Food" ∧
    p_pct p = Num.of_Z 100 ∧
    p_d p = "M 120,120 L -8880,-8880 A 100,100 0 1,1 27120,27120 Z".
Proof.
  destruct (pie_full_circle_arc example_trig example_trig example_trig example_fmt2
              [mkSlice "Food" (Num.of_Z 100); mkSlice "Travel" 0] (Num.of_Z 100)
              (Num.of_Z 120) (Num.of_Z 120) (Num.of_Z 100) None
              (mkSlice "Food" (Num.of_Z 100))) as (p & H1 & H2 & H3 & H4).
  - Qc_decide.
  - vm_compute. reflexivity.
  - reflexivity.
  - exists p. split; [exact H1|]. split; [exact H2|]. split; [exact H3|].
    rewrite H4. vm_compute. reflexivity.
Defined.

Lemma compare_period_without_records_witness :
  ∃ sd,
    download_summary_svg example_trig example_trig example_trig example_fmt2
      example_month_name example_table example_today example_args = Ok sd ∧
    (sd_compare_month sd, sd_compare_year sd) = (12%Z, 2023%Z) ∧
    sd_compare_total sd = 0 ∧
    sd_compare_pie sd = [] ∧
    Forall (λ row, row_compare row = 0 ∧
                   (row_pct_change row = PctNone ∨ row_pct_change row = PctStr "inf"))
           (sd_comparison sd) ∧
    length (sd_comparison sd) = 1%nat.
Proof.
  destruct (download_summary_svg example_trig example_trig example_trig example_fmt2
              example_month_name example_table example_today example_args)
    as [sd|e] eqn:Hsd; [|vm_compute in Hsd; discriminate Hsd].
  exists sd.
  assert (sd_compare_month sd = 12%Z ∧ sd_compare_year sd = 2023%Z ∧
          length (sd_comparison sd) = 1%nat) as (Hm & Hy & Hl).
  { vm_compute in Hsd. injection Hsd as <-. repeat split. }
  destruct (compare_period_without_records example_trig example_trig example_trig
              example_fmt2 example_fmt2 example_month_name example_table example_today
              example_args sd Hsd) as (H1 & H2 & H3 & _).
  - rewrite Hm, Hy. reflexivity.
  - split; [reflexivity|]. split; [by rewrite Hm, Hy|].
    split; [exact H1|]. split; [exact H2|]. split; [exact H3|exact Hl].
Defined.

Lemma svg_document_layout_witness :
  ∃ parts,
    svg_parts example_fmt2 example_fmt2 example_month_name 1 2024 12 2023
      ["Food"] example_rows (Num.of_Z 100) (Num.of_Z 100) (Num.of_Z 50) [] [] = Ok parts ∧
    parts !! 1%nat =
      Some (lit "<svg xmlns='http://www.w3.org/2000/svg' viewBox='0 0 1200 320'>") ∧
    last parts = Some "</svg>" ∧
    length parts = 35%nat ∧
    lit "<g transform='translate(800, 320)'>" ∈ parts.
Proof.
  destruct (svg_document_layout example_fmt2 example_fmt2 example_month_name
              1 2024 12 2023 ["Food"] example_rows (Num.of_Z 100) (Num.of_Z 100)
              (Num.of_Z 50) [] [] "January" "December")
    as (parts & H1 & _ & H3 & H4 & H5 & H6 & _).
  - reflexivity.
  - reflexivity.
  - Qc_decide.
  - exists parts. split; [exact H1|]. split; [exact H3|]. split; [exact H4|].
    split; [exact H5|exact H6].
Defined.

Lemma download_summary_svg_answers_witness :
  ∃ sd,
    download_summary_svg example_trig example_trig example_trig example_fmt2
      example_month_name example_table example_today example_args = Ok sd ∧
    ∃ parts,
      svg_parts example_fmt2 example_fmt2 example_month_name (sd_month sd) (sd_year sd)
        (sd_compare_month sd) (sd_compare_year sd)
        (row_category <$> sd_comparison sd) (sd_comparison sd) (sd_max_bar_value sd)
        (sd_primary_total sd) (sd_compare_total sd)
        (sd_primary_pie sd) (sd_compare_pie sd) = Ok parts ∧
      download_summary_svg_response example_fmt2 example_fmt2 example_month_name
        example_trig example_trig example_trig example_table example_today example_args =
        Ok {| body := String.concat newline parts;
              mimetype := "image/svg+xml";
              content_disposition :=
                lit "attachment; filename='comparison_" +:+ pretty (sd_year sd) +:+
                "_" +:+ pretty (sd_month sd) +:+ "_vs_" +:+
                pretty (sd_compare_year sd) +:+ "_" +:+
                pretty (sd_compare_month sd) +:+ lit ".svg'" |}.
Proof.
  destruct (download_summary_svg example_trig example_trig example_trig example_fmt2
              example_month_name example_table example_today example_args)
    as [sd|e] eqn:Hsd; [|vm_compute in Hsd; discriminate Hsd].
  exists sd. split; [reflexivity|].
  exact (download_summary_svg_answers example_trig example_trig example_trig
           example_fmt2 example_fmt2 example_month_name example_table example_today
           example_args sd Hsd).
Defined.

(** * Properties on binary floating point *)

(** ** The operations on well-known cases *)

(** 0.1 + 0.2 is 0.30000000000000004; round(2.675, 2) is 2.67, the float
    2.675 lying below the decimal; round(0.125, 2) is 0.12 and
    round(0.375, 2) is 0.38, a tie going to the even digit; round(-0.001, 2)
    is -0.0, which equals 0.0. *)
Lemma binary64_examples :
  Binary64.add (Binary64.of_decimal 1 1) (Binary64.of_decimal 2 1)
    = Binary64.of_decimal 30000000000000004 17 ∧
  Binary64.round (Binary64.of_decimal 2675 3) 2 = Binary64.of_decimal 267 2 ∧
  Binary64.round (Binary64.of_decimal 125 3) 2 = Binary64.of_decimal 12 2 ∧
  Binary64.round (Binary64.of_decimal 375 3) 2 = Binary64.of_decimal 38 2 ∧
  Binary64.round (Binary64.of_decimal (-1) 3) 2 = SpecFloat.S754_zero true ∧
  Binary64.eqb (SpecFloat.S754_zero true) Binary64.zero = true.
Proof. vm_compute. repeat split. Qed.

(** ** The aggregator on floats *)

Lemma dict_get_set (d : Binary64.dict) (k k' : string) (v : Binary64.float) :
  Binary64.dict_get (Binary64.dict_set d k v) k' =
    if decide (k = k') then Some v else Binary64.dict_get d k'.
Proof.
  induction d as [|[k0 v0] d IH]; simpl.
  - destruct (decide (k = k')); done.
  - destruct (decide (k0 = k)) as [->|Hk0]; simpl.
    + destruct (decide (k = k')); done.
    + rewrite IH. destruct (decide (k0 = k')) as [->|]; [|done].
      by rewrite decide_False by done.
Qed.

Lemma dict_set_keys (d : Binary64.dict) (k : string) (v : Binary64.float) :
  Binary64.keys (Binary64.dict_set d k v) =
    if decide (k ∈ Binary64.keys d) then Binary64.keys d else Binary64.keys d ++ [k].
Proof.
  unfold Binary64.keys. induction d as [|[k0 v0] d IH].
  - destruct (decide (k ∈ _)) as [Hin|_]; [by apply elem_of_nil in Hin|done].
  - cbn [Binary64.dict_set]. destruct (decide (k0 = k)) as [->|Hk0].
    + rewrite !fmap_cons. cbn [fst].
      destruct (decide (_ ∈ _ :: _)) as [_|Hin]; [done|].
      destruct Hin. apply elem_of_cons. by left.
    + rewrite !fmap_cons. cbn [fst]. rewrite IH.
      destruct (decide (k ∈ d.*1)) as [Hin|Hin].
      * destruct (decide (_ ∈ _ :: _)) as [_|Hin']; [done|].
        destruct Hin'. apply elem_of_cons. by right.
      * destruct (decide (_ ∈ _ :: _)) as [Hin'|_]; [|done].
        apply elem_of_cons in Hin' as [->|?]; done.
Qed.

Lemma float_totals_loop (l : list Binary64.Expense) (totals : Binary64.dict)
    (total : Binary64.float) :
  snd (foldl Binary64.totals_step (totals, total) l) =
    foldl Binary64.add total (Binary64.amount <$> l) ∧
  (NoDup (Binary64.keys totals) →
   NoDup (Binary64.keys (fst (foldl Binary64.totals_step (totals, total) l)))) ∧
  ∀ cat,
    Binary64.dict_get (fst (foldl Binary64.totals_step (totals, total) l)) cat =
      match amounts_of cat l with
      | [] => Binary64.dict_get totals cat
      | amounts =>
          Some (foldl Binary64.add
                  (default Binary64.zero (Binary64.dict_get totals cat)) amounts)
      end.
Proof.
  revert totals total. induction l as [|e l IH]; intros totals total; [done|].
  simpl foldl. destruct (IH (Binary64.dict_set totals (Binary64.category e)
    (Binary64.add (default Binary64.zero (Binary64.dict_get totals (Binary64.category e)))
       (Binary64.amount e))) (Binary64.add total (Binary64.amount e))) as (H1 & H2 & H3).
  split; [by rewrite H1|]. split.
  - intros Hnd. apply H2. rewrite dict_set_keys.
    destruct (decide _) as [|Hin]; [done|].
    apply NoDup_app. split; [done|]. split; [|apply NoDup_singleton].
    intros x Hx [->|[]%elem_of_nil]%elem_of_cons. done.
  - intros cat. rewrite H3, dict_get_set. unfold amounts_of. rewrite filter_cons.
    destruct (decide (Binary64.category e = cat)) as [->|Hne]; [|done].
    rewrite fmap_cons. simpl.
    by destruct (Binary64.amount <$> filter _ l).
Qed.

(** In exact arithmetic the grand total is the sum of the values of the
    map, and the sum of the amounts of the month. *)
Lemma totals_for_month_exact_sum (table : list Expense) (month year : Z) :
  snd (totals_for_month table month year) =
    sum_values (fst (totals_for_month table month year)) ∧
  snd (totals_for_month table month year) =
    sum_amounts (query_month table month year).
Proof.
  unfold totals_for_month.
  destruct (totals_loop_invariant (query_month table month year) ∅ 0) as [H1 H2].
  - unfold sum_values. by rewrite map_fold_empty.
  - split; [done|]. rewrite H2. ring.
Qed.

(** C9 (as amended): each matching record's amount is accumulated exactly
    once into the grand total and once into the value of its category.  On
    the program's floats the grand total is the sum of the matching
    amounts taken in query order, the map has one key for each category
    that occurs, and the value of a category is the sum of its amounts in
    query order.  In exact arithmetic the grand total is the sum of the
    values of the map. *)
Theorem totals_for_month_accumulates_once :
  (∀ (table : list Binary64.Expense) (month year : Z),
     let rows := Binary64.query_month table month year in
     let out := Binary64.totals_for_month table month year in
     snd out = float_sum (Binary64.amount <$> rows) ∧
     NoDup (Binary64.keys (fst out)) ∧
     ∀ cat,
       Binary64.dict_get (fst out) cat =
         match amounts_of cat rows with
         | [] => None
         | amounts => Some (float_sum amounts)
         end) ∧
  (∀ (table : list Expense) (month year : Z),
     snd (totals_for_month table month year) =
       sum_values (fst (totals_for_month table month year))).
Proof.
  split.
  - intros table month year rows out.
    destruct (float_totals_loop rows [] Binary64.zero) as (H1 & H2 & H3).
    split; [exact H1|]. split; [apply H2; constructor|].
    intros cat. unfold out, Binary64.totals_for_month. fold rows.
    rewrite H3. reflexivity.
  - intros table month year. apply totals_for_month_exact_sum.
Qed.

(** C9 (as stated) fails on the program's floats: for the amounts 0.01,
    0.01 and 0.08, the second of another category, the grand total is 0.1
    while the values of the map, 0.09 and 0.01, add up to
    0.09999999999999999 in either order. *)
Lemma totals_for_month_float_counterexample :
  Binary64.totals_for_month example_cents 3 2024 =
    ([("Food", Binary64.of_decimal 9 2); ("Travel", Binary64.of_decimal 1 2)],
     Binary64.of_decimal 1 1) ∧
  float_sum [Binary64.of_decimal 9 2; Binary64.of_decimal 1 2] =
    Binary64.of_decimal 9999999999999999 17 ∧
  float_sum [Binary64.of_decimal 1 2; Binary64.of_decimal 9 2] =
    Binary64.of_decimal 9999999999999999 17 ∧
  Binary64.eqb (snd (Binary64.totals_for_month example_cents 3 2024))
    (float_sum (Binary64.values (fst (Binary64.totals_for_month example_cents 3 2024))))
    = false.
Proof. vm_compute. repeat split. Qed.

(** ** Comparison rows on floats *)

Lemma float_comparison_body_Ok (pm cm : Binary64.dict) (cat : string) :
  Binary64.comparison_body pm cm cat =
    Ok (float_row pm cm cat,
        Binary64.mkSlice cat
          (Binary64.round (default Binary64.zero (Binary64.dict_get pm cat)) 2),
        Binary64.mkSlice cat
          (Binary64.round (default Binary64.zero (Binary64.dict_get cm cat)) 2)).
Proof.
  unfold Binary64.comparison_body, float_row, Binary64.div.
  destruct (Binary64.eqb (Binary64.round (default Binary64.zero (Binary64.dict_get cm cat)) 2)
              Binary64.zero); reflexivity.
Qed.

(** C1 (as amended): every comparison row is built without an error; its
    percent change is null when both rounded totals are zero, the string
    "inf" (which is no number and not null) when only the compare total is
    zero, and otherwise d / c * 100 rounded to two decimals, where d is
    p - c rounded to two decimals, each operation on the program's
    floats. *)
Theorem comparison_pct_change (pm cm : Binary64.dict) :
  ∃ comparison primary_slices compare_slices,
    Binary64.build_comparison pm cm = Ok (comparison, primary_slices, compare_slices) ∧
    Binary64.row_category <$> comparison = Binary64.categories_of pm cm ∧
    Forall (λ row,
      let p := Binary64.row_primary row in
      let c := Binary64.row_compare row in
      let d := Binary64.round (Binary64.sub p c) 2 in
      p = Binary64.round
            (default Binary64.zero (Binary64.dict_get pm (Binary64.row_category row))) 2 ∧
      c = Binary64.round
            (default Binary64.zero (Binary64.dict_get cm (Binary64.row_category row))) 2 ∧
      Binary64.row_pct_change row =
        (if Binary64.eqb c Binary64.zero
         then (if Binary64.eqb p Binary64.zero
               then Binary64.PctNone else Binary64.PctStr "inf")
         else Binary64.PctNum
                (Binary64.round
                   (Binary64.mul (Binary64.quot d c) (Binary64.of_Z 100)) 2)))
      comparison ∧
    (∀ x, Binary64.PctStr "inf" ≠ Binary64.PctNum x) ∧
    Binary64.PctStr "inf" ≠ Binary64.PctNone.
Proof.
  unfold Binary64.build_comparison.
  rewrite (mapM_total _ _ _ (float_comparison_body_Ok pm cm)), result_bind_Ok.
  eexists _, _, _. split; [reflexivity|].
  rewrite <- !list_fmap_compose. split; [apply list_fmap_id|].
  split; [|done].
  apply Forall_fmap, Forall_forall. intros cat _.
  unfold compose, float_row. cbn [fst Binary64.row_primary Binary64.row_compare
    Binary64.row_category Binary64.row_pct_change].
  split; [reflexivity|]. split; reflexivity.
Qed.

(** C1 (as stated) fails.  For the rounded totals p = 0.03 and c = 0.32
    the code gives -90.62, having rounded p - c to -0.29 first, where
    (p - c) / c * 100 on floats, rounded to two decimals, is -90.63.  For
    p = 1.71 and c = 1.6 the code gives 6.87, where (p - c) / c * 100 is
    6.875 in exact arithmetic, which rounds to 6.88.  And with a primary
    total of 50 against no compare total, the percent change is the string
    "inf", not "infinite". *)
Lemma comparison_pct_change_counterexample :
  (∃ row ps cs,
     Binary64.comparison_body [("Food", Binary64.of_decimal 3 2)]
       [("Food", Binary64.of_decimal 32 2)] "Food" = Ok (row, ps, cs) ∧
     Binary64.row_primary row = Binary64.of_decimal 3 2 ∧
     Binary64.row_compare row = Binary64.of_decimal 32 2 ∧
     Binary64.row_pct_change row = Binary64.PctNum (Binary64.of_decimal (-9062) 2) ∧
     Binary64.round
       (Binary64.mul
          (Binary64.quot (Binary64.sub (Binary64.row_primary row) (Binary64.row_compare row))
             (Binary64.row_compare row))
          (Binary64.of_Z 100)) 2 = Binary64.of_decimal (-9063) 2 ∧
     Binary64.eqb (Binary64.of_decimal (-9062) 2) (Binary64.of_decimal (-9063) 2)
       = false) ∧
  (∃ row ps cs,
     Binary64.comparison_body [("Food", Binary64.of_decimal 171 2)]
       [("Food", Binary64.of_decimal 16 1)] "Food" = Ok (row, ps, cs) ∧
     Binary64.row_primary row = Binary64.of_decimal 171 2 ∧
     Binary64.row_compare row = Binary64.of_decimal 16 1 ∧
     Binary64.row_pct_change row = Binary64.PctNum (Binary64.of_decimal 687 2) ∧
     Num.round2 ((Q2Qc (171 # 100) - Q2Qc (16 # 10)) / Q2Qc (16 # 10) * Num.of_Z 100)
       = Q2Qc (688 # 100)) ∧
  (∃ row ps cs,
     Binary64.comparison_body [("Travel", Binary64.of_Z 50)] [] "Travel"
       = Ok (row, ps, cs) ∧
     Binary64.eqb (Binary64.row_compare row) Binary64.zero = true ∧
     Binary64.eqb (Binary64.row_primary row) Binary64.zero = false ∧
     Binary64.row_pct_change row = Binary64.PctStr "inf" ∧
     Binary64.row_pct_change row ≠ Binary64.PctStr "infinite").
Proof.
  split; [|split].
  - eexists _, _, _. split; [apply float_comparison_body_Ok|].
    vm_compute. repeat split.
  - eexists _, _, _. split; [apply float_comparison_body_Ok|].
    split; [vm_compute; reflexivity|]. split; [vm_compute; reflexivity|].
    split; [vm_compute; reflexivity|]. by apply Qc_is_canon.
  - eexists _, _, _. split; [apply float_comparison_body_Ok|].
    vm_compute. repeat split. discriminate.
Qed.
